(** * pygsheets.drive: the Google Drive API wrapper

    A shallow embedding of [src/pygsheets/drive.py] and the properties its
    specification states about it.

    The methods of [DriveAPIWrapper] are functions in a small state-and-error
    monad.  The state holds what the methods can change: the calls sent to
    the provider, the log, the local file handles and the positions of the
    worksheets.  What the provider and the file system answer is an
    [environment], a parameter of every method.  A Python exception is a
    [Raise] result; keyword arguments, request bodies and responses are
    dicts with string keys. *)

From Stdlib Require Import ZArith String Ascii List Bool Lia DecimalString.
From stdpp Require Import base option list strings gmap.

Set Warnings "-register-all".
Open Scope string_scope.
Open Scope list_scope.
Open Scope Z_scope.

(** ** Python values *)

(** JSON-like values: keyword arguments, request bodies and the fields of a
    provider response. *)
Inductive value :=
| VNone
| VBool (b : bool)
| VInt (z : Z)
| VStr (s : string)
| VList (l : list value)
| VDict (d : list (string * value)).

(** A Python dict with string keys. *)
Abbreviation dict := (gmap string value).

(** Truth value of an object, as tested by [if] and [and]. *)
Definition truthy (v : value) : bool :=
  match v with
  | VNone => false
  | VBool b => b
  | VInt z => negb (z =? 0)
  | VStr s => negb (String.eqb s "")
  | VList l => match l with [] => false | _ => true end
  | VDict d => match d with [] => false | _ => true end
  end.

(** [str(n)] for an int. *)
Definition str_of_int (n : Z) : string := NilZero.string_of_int (Z.to_int n).

(** [s.find(sub)]: the lowest index at which [sub] occurs in [s], or -1. *)
Fixpoint find_from (i : Z) (s sub : string) : Z :=
  if String.prefix sub s then i
  else match s with
       | EmptyString => -1
       | String _ s' => find_from (i + 1) s' sub
       end.

Definition find (s sub : string) : Z := find_from 0 s sub.

(** [range(n)]: empty when [n] is zero or negative. *)
Definition range (n : Z) : list Z := map Z.of_nat (seq 0 (Z.to_nat n)).

(** ** Exceptions *)

(** An error raised by the API client while a request is executed (an
    [HttpError], a socket error, ...).  The wrapper only looks at its class
    and at its [repr] and [str] texts. *)
Record failure := Failure {
  is_HttpError : bool;
  repr : string;
  str : string
}.

Inductive exception :=
| Provider (e : failure)
| InvalidArgumentValue (msg : string)
| CannotRemoveOwnerError (msg : string)
| RequestError (msg : string)
| KeyError (key : string)
| TypeError (msg : string)
| ValueError (msg : string)
| OSError (filename : string).

(** ** Remote requests *)

Inductive endpoint :=
| files_get | files_list | files_delete | files_update | files_export
| permissions_create | permissions_list | permissions_delete.

(** A prepared call, as built by [self.service.<collection>().<method>(...)]:
    building it is local, only executing it reaches the provider. *)
Record request := Request {
  endpoint_of : endpoint;
  params : dict;
  body : option dict
}.

(** One interaction with the provider. *)
Inductive event :=
| Executed (r : request)            (* request.execute() *)
| Chunk (r : request) (n : nat).    (* the n-th next_chunk() of a download *)

Inductive outcome :=
| Returns (response : dict)
| Raises (e : failure).

(** Progress report of [next_chunk]; [percent] is [int(status.progress() * 100)]. *)
Record status := Status { percent : Z }.

(** A chunked download as the provider serves it: some chunks that are not
    the last one, then either the final chunk or an error. *)
Inductive download_end :=
| Completes (st : status)
| Breaks (e : failure).

Record download := Download {
  partial_chunks : list status;
  ending : download_end
}.

(** ** State *)

Inductive log_record :=
| Warning (fmt : string) (args : list value)
| Exception (msg : string)
| Info (fmt : string) (args : list value).

(** A local file handle: its name, the number of chunks written to it and
    whether [close] has been called on it. *)
Record file_handle := FileHandle {
  name : string;
  written : nat;
  closed : bool
}.

(** What the methods act upon: the interactions with the provider so far,
    the records logged, the file handles opened and, for every worksheet
    object, its position. *)
Record world := World {
  history : list event;
  logs : list log_record;
  handles : list file_handle;
  index_of : nat -> Z
}.

(** The world outside the wrapper.  What a call yields may depend on
    everything that happened so far. *)
Record environment := Environment {
  execute : world -> request -> outcome;
  serve : world -> request -> download;
  unwritable : string -> bool;
  discovery_document : string -> option (string + failure)
}.

Definition log (r : log_record) (w : world) : world :=
  World (history w) (logs w ++ [r]) (handles w) (index_of w).

(** ** The state-and-error monad *)

(** How a computation ends: with a value, with an exception, or cut short
    because the bound given to one of the [while] loops was too small. *)
Inductive result (A : Type) :=
| Ok (a : A)
| Raise (e : exception)
| Unfinished.
Arguments Ok {A} a.
Arguments Raise {A} e.
Arguments Unfinished {A}.

Definition M (A : Type) : Type := world -> result A * world.

Definition ret {A} (a : A) : M A := fun w => (Ok a, w).

Definition bind {A B} (m : M A) (f : A -> M B) : M B := fun w =>
  match m w with
  | (Ok a, w') => f a w'
  | (Raise e, w') => (Raise e, w')
  | (Unfinished, w') => (Unfinished, w')
  end.

Notation "'let*' x ':=' m 'in' k" := (bind m (fun x => k))
  (at level 10, x name, m at level 100, k at level 200).
Notation "'do' m 'then' k" := (bind m (fun _ => k))
  (at level 10, m at level 100, k at level 200).

Definition raise {A} (e : exception) : M A := fun w => (Raise e, w).

Definition emit (r : log_record) : M unit := fun w => (Ok tt, log r w).

(** ** Regular expressions

    A small matcher by derivatives, enough for the two patterns of the
    module.  Only the truth value of a match object is used by the code. *)
Inductive regex :=
| Nothing
| Empty
| Chr (c : ascii)
| Class (p : ascii -> bool)
| Seq (r s : regex)
| Alt (r s : regex)
| Plus (r : regex)
| Star (r : regex)
| Opt (r : regex).

Fixpoint nullable (r : regex) : bool :=
  match r with
  | Nothing | Chr _ | Class _ => false
  | Empty | Star _ | Opt _ => true
  | Seq r s => nullable r && nullable s
  | Alt r s => nullable r || nullable s
  | Plus r => nullable r
  end.

Fixpoint deriv (c : ascii) (r : regex) : regex :=
  match r with
  | Nothing | Empty => Nothing
  | Chr c' => if Ascii.eqb c c' then Empty else Nothing
  | Class p => if p c then Empty else Nothing
  | Seq r s => Alt (Seq (deriv c r) s) (if nullable r then deriv c s else Nothing)
  | Alt r s => Alt (deriv c r) (deriv c s)
  | Plus r => Seq (deriv c r) (Star r)
  | Star r => Seq (deriv c r) (Star r)
  | Opt r => deriv c r
  end.

(** [pattern.match(s)] is truthy: some prefix of [s] matches. *)
Fixpoint re_match (r : regex) (s : string) : bool :=
  nullable r ||
  match s with
  | EmptyString => false
  | String c s' => re_match (deriv c r) s'
  end.

(** [re.search(pattern, s)] is truthy: the pattern matches at some position. *)
Fixpoint re_search (r : regex) (s : string) : bool :=
  re_match r s ||
  match s with
  | EmptyString => false
  | String _ s' => re_search r s'
  end.

(** A pattern without metacharacters (escaped ones included). *)
Fixpoint literal (s : string) : regex :=
  match s with
  | EmptyString => Empty
  | String c s' => Seq (Chr c) (literal s')
  end.

Definition between (lo hi : nat) (c : ascii) : bool :=
  (lo <=? nat_of_ascii c)%nat && (nat_of_ascii c <=? hi)%nat.

Definition one_of (s : string) (c : ascii) : bool :=
  existsb (Ascii.eqb c) (list_ascii_of_string s).

(** [a-zA-Z0-9] *)
Definition alnum (c : ascii) : bool :=
  between 97 122 c || between 65 90 c || between 48 57 c.

Definition double_quote : ascii := ascii_of_nat 34.

(** ** Module constants *)

Definition PERMISSION_ROLES : list string :=
  ["organizer"; "owner"; "writer"; "commenter"; "reader"].
Definition PERMISSION_TYPES : list string :=
  ["user"; "group"; "domain"; "anyone"].

(** [str(l)] for a list of plain words. *)
Definition str_of_names (l : list string) : string :=
  "[" +:+ String.concat ", " (map (fun n => "'" +:+ n +:+ "'") l) +:+ "]".

Section EmailPattern.

(** What [\w] accepts beyond ASCII is decided by the Unicode tables of the
    [re] module. *)
Variable unicode_alnum : ascii -> bool.

Definition word (c : ascii) : bool :=
  alnum c || Ascii.eqb c "_" || ((128 <=? nat_of_ascii c)%nat && unicode_alnum c).

(** ["?([-a-zA-Z0-9.`?{}]+@[-a-zA-Z0-9.]+\.\w+)"?] *)
Definition _EMAIL_PATTERN : regex :=
  Seq (Opt (Chr double_quote))
   (Seq (Seq (Plus (Class (fun c => one_of "-" c || alnum c || one_of ".`?{}" c)))
         (Seq (Chr "@")
          (Seq (Plus (Class (fun c => one_of "-" c || alnum c || one_of "." c)))
           (Seq (Chr ".") (Plus (Class word))))))
        (Opt (Chr double_quote))).

End EmailPattern.

(** ** Sheets and export formats *)

(** Modelled from the spec: the export formats of [pygsheets.custom_types],
    which is not part of this module.  A format pairs a MIME type with a file
    extension; the module tells [CSV] and [TSV] from the other members. *)
Inductive ExportType :=
| CSV
| TSV
| OtherType (member : string).

(** The [file_format] argument of [export]: a member of [ExportType], or
    anything else [getattr(file_format, 'value', file_format)] falls back
    on, here a plain string. *)
Inductive file_format :=
| Member (e : ExportType)
| Plain (s : string).

(** [file_format == ExportType.CSV or file_format == ExportType.TSV] *)
Definition is_CSV_or_TSV (f : file_format) : bool :=
  match f with
  | Member CSV | Member TSV => true
  | _ => false
  end.

(** [s.split(sep)] for a one-character separator. *)
Fixpoint split (sep : ascii) (s : string) : list string :=
  match s with
  | EmptyString => [""]
  | String c s' =>
      if Ascii.eqb c sep then "" :: split sep s'
      else match split sep s' with
           | [] => [String c ""]
           | p :: ps => String c p :: ps
           end
  end.

(** Modelled from the spec: the worksheet and spreadsheet objects of
    [pygsheets.worksheet] and [pygsheets.spreadsheet], which are not part
    of this module.  A worksheet has an identifier, belongs to a
    spreadsheet and has a position ([index]) that can be reassigned; the
    position lives in the state, under the identity of the object, so that
    every holder of the object sees the reassignment. *)
Record Worksheet := {
  ws_object : nat;
  ws_id : Z;
  ws_spreadsheet_id : string
}.

(** Modelled from the spec: a spreadsheet has an identifier and an ordered
    sequence of worksheets, which iterating over it yields. *)
Record Spreadsheet := {
  ss_id : string;
  worksheets : list Worksheet
}.

Inductive sheet :=
| ASpreadsheet (s : Spreadsheet)
| AWorksheet (ws : Worksheet).

(** ** The wrapper object *)

Record DriveAPIWrapper := Wrapper {
  team_drive_id : option string;
  retries : Z
}.

(** [if self.team_drive_id]: neither [None] nor the empty string. *)
Definition team_drive_active (self : DriveAPIWrapper) : bool :=
  match team_drive_id self with
  | Some t => negb (String.eqb t "")
  | None => false
  end.

Definition _spreadsheet_mime_type_query : string :=
  "mimeType='application/vnd.google-apps.spreadsheet'".

(** ** Primitive effects *)

Definition record (e : event) : M unit := fun w =>
  (Ok tt, World (history w ++ [e]) (logs w) (handles w) (index_of w)).

(** [io.FileIO(name, 'wb')], [open(name)]: a new handle, last in the table,
    unless the file system refuses. *)
Definition open_file (refused : string -> bool) (name : string) : M nat := fun w =>
  if refused name then (Raise (OSError name), w)
  else (Ok (length (handles w)),
        World (history w) (logs w) (handles w ++ [FileHandle name 0 false]) (index_of w)).

Definition write_chunk (fh : nat) : M unit := fun w =>
  (Ok tt, World (history w) (logs w)
            (alter (fun h => FileHandle (name h) (S (written h)) (closed h)) fh (handles w))
            (index_of w)).

Definition close_file (fh : nat) : M unit := fun w =>
  (Ok tt, World (history w) (logs w)
            (alter (fun h => FileHandle (name h) (written h) true) fh (handles w))
            (index_of w)).

(** [sheet.index] and [sheet.index = i]. *)
Definition get_index (ws : Worksheet) : M Z := fun w => (Ok (index_of w (ws_object ws)), w).

Definition set_index (ws : Worksheet) (i : Z) : M unit := fun w =>
  (Ok tt, World (history w) (logs w) (handles w)
            (fun o => if Nat.eqb o (ws_object ws) then i else index_of w o)).

(** [with m as x: body]: the handle is closed however [body] ends. *)
Definition with_file {A} (refused : string -> bool) (name : string)
    (body : nat -> M A) : M A := fun w =>
  match open_file refused name w with
  | (Ok fh, w1) =>
      match body fh w1 with
      | (r, w2) => (r, snd (close_file fh w2))
      end
  | (Raise e, w1) => (Raise e, w1)
  | (Unfinished, w1) => (Unfinished, w1)
  end.

(** [try: m  except HttpError as error: handler]. *)
Definition try_except_HttpError {A} (m : M A) (handler : failure -> M A) : M A := fun w =>
  match m w with
  | (Raise (Provider e), w') =>
      if is_HttpError e then handler e w' else (Raise (Provider e), w')
  | other => other
  end.

(** ** Python operations on responses and keyword arguments *)

(** [response[key]]; [_execute_request] may have returned [None]. *)
Definition subscript (response : option dict) (key : string) : M value :=
  match response with
  | None => raise (TypeError "'NoneType' object is not subscriptable")
  | Some d =>
      match d !! key with
      | Some v => ret v
      | None => raise (KeyError key)
      end
  end.

(** [key in response] *)
Definition contains (response : option dict) (key : string) : M bool :=
  match response with
  | None => raise (TypeError "argument of type 'NoneType' is not iterable")
  | Some d => ret (bool_decide (is_Some (d !! key)))
  end.

(** [kwargs[key]] *)
Definition kwarg (kwargs : dict) (key : string) : M value :=
  match kwargs !! key with
  | Some v => ret v
  | None => raise (KeyError key)
  end.

Definition has_key (d : dict) (key : string) : bool :=
  bool_decide (is_Some (d !! key)).

(** [result.extend(v)] *)
Definition extend (result : list value) (v : value) : M (list value) :=
  match v with
  | VList l => ret (result ++ l)
  | VStr s => ret (result ++ map (fun c => VStr (String c "")) (list_ascii_of_string s))
  | VDict d => ret (result ++ map (fun kv => VStr (fst kv)) d)
  | VNone => raise (TypeError "'NoneType' object is not iterable")
  | VBool _ => raise (TypeError "'bool' object is not iterable")
  | VInt _ => raise (TypeError "'int' object is not iterable")
  end.

(** A call [method(k1=v1, ..., body=body, **kwargs)] on a collection of
    the service: a keyword given both ways is a [TypeError], otherwise the
    request is built. *)
Definition call (method : endpoint) (explicit : list (string * value))
    (body : option dict) (kwargs : dict) : M request :=
  let given := map fst explicit ++ match body with Some _ => ["body"] | None => [] end in
  match List.find (has_key kwargs) given with
  | Some k => raise (TypeError ("got multiple values for keyword argument '" +:+ k +:+ "'"))
  | None => ret (Request method (list_to_map explicit ∪ kwargs) body)
  end.

(** [for x in l: body x] *)
Fixpoint for_each {A} (l : list A) (body : A -> M unit) : M unit :=
  match l with
  | [] => ret tt
  | x :: rest => do body x then for_each rest body
  end.

(** ** The operations of [DriveAPIWrapper]

    The methods live in a module of their own: one of them is called [list]. *)

Module Drive.
Section Methods.

Variable env : environment.

(** The [value] attribute of the members of [ExportType], declared in
    [pygsheets.custom_types]. *)
Variable ExportType_value : ExportType -> string.

Variable unicode_alnum : ascii -> bool.

(** [os.path.join(data_path, "drive_discovery.json")] *)
Definition discovery_path (data_path : string) : string :=
  if String.eqb data_path "" then "drive_discovery.json"
  else if String.prefix "/" (String.substring (String.length data_path - 1) 1 data_path)
       then data_path +:+ "drive_discovery.json"
       else data_path +:+ "/drive_discovery.json".

(** [__init__]: the discovery document is read inside a [with] block. *)
Definition __init__ (data_path : string) : M DriveAPIWrapper :=
  do with_file (fun n => bool_decide (discovery_document env n = None))
       (discovery_path data_path)
       (fun jd =>
          match discovery_document env (discovery_path data_path) with
          | Some (inr e) => raise (Provider e)
          | _ => ret tt
          end)
  then ret (Wrapper None 2).

Definition enable_team_drive (self : DriveAPIWrapper) (team_drive_id : option string) :=
  Wrapper team_drive_id (retries self).

Definition disable_team_drive (self : DriveAPIWrapper) :=
  Wrapper None (retries self).

(** [request.execute()]: the call is recorded and the provider decides. *)
Definition request_execute (r : request) (w : world) : outcome * world :=
  (execute env w r,
   World (history w ++ [Executed r]) (logs w) (handles w) (index_of w)).

(** The [for i in range(self.retries)] loop of [_execute_request]; only
    [request.execute()] is inside the [try], and falling out of the loop
    returns [None]. *)
Fixpoint _execute_request_loop (self : DriveAPIWrapper) (request : request)
    (iter : list Z) : M (option dict) := fun w =>
  match iter with
  | [] => (Ok None, w)
  | i :: rest =>
      match request_execute request w with
      | (Raises e, w') =>
          if find (repr e) "timed out" =? -1 then (Raise (Provider e), w')
          else if i =? retries self - 1
               then (Raise (RequestError ("Timeout : " +:+ repr e)), w')
               else _execute_request_loop self request rest w'
      | (Returns response, w') => (Ok (Some response), w')
      end
  end.

Definition _execute_request (self : DriveAPIWrapper) (request : request) : M (option dict) :=
  _execute_request_loop self request (range (retries self)).

Definition get_update_time (self : DriveAPIWrapper) (file_id : string) : M value :=
  let* response := _execute_request self
    (Request files_get {[ "fileId" := VStr file_id; "fields" := VStr "modifiedTime" ]} None) in
  subscript response "modifiedTime".

Definition _export_request (file_id mime_type : string) : request :=
  Request files_export {[ "fileId" := VStr file_id; "mimeType" := VStr mime_type ]} None.

(** [mime_type, file_extension = getattr(file_format, 'value', file_format).split(':')] *)
Definition split_format (f : file_format) : M (string * string) :=
  let text := match f with Member e => ExportType_value e | Plain s => s end in
  match split ":" text with
  | [mime_type; file_extension] => ret (mime_type, file_extension)
  | [] | [_] => raise (ValueError "not enough values to unpack (expected 2, got 1)")
  | _ => raise (ValueError "too many values to unpack (expected 2)")
  end.

(** [while done is False: status, done = downloader.next_chunk(); logging.info(...)]:
    every chunk is requested from the provider and written to the handle. *)
Fixpoint download_chunks (request : request) (fh : nat) (n : nat)
    (chunks : list status) (last : download_end) : M unit :=
  match chunks with
  | st :: rest =>
      do record (Chunk request n) then
      do write_chunk fh then
      do emit (Info "Download progress: %d%%." [VInt (percent st)]) then
      download_chunks request fh (S n) rest last
  | [] =>
      do record (Chunk request n) then
      match last with
      | Completes st =>
          do write_chunk fh then
          emit (Info "Download progress: %d%%." [VInt (percent st)])
      | Breaks e => raise (Provider e)
      end
  end.

(** [filename + str(worksheet.index)] *)
Definition add_str (filename : option string) (suffix : string) : M string :=
  match filename with
  | Some f => ret (f +:+ suffix)
  | None => raise (TypeError "unsupported operand type(s) for +: 'NoneType' and 'str'")
  end.

(** [str(sheet.id)] *)
Definition str_id (sh : sheet) : string :=
  match sh with
  | ASpreadsheet s => ss_id s
  | AWorksheet ws => str_of_int (ws_id ws)
  end.

(** [export].  [depth] bounds the nesting of the calls of [export] on the
    worksheets of a spreadsheet; these calls are on worksheets, so one level
    is all the method ever uses. *)
Fixpoint export_rec (depth : nat) (self : DriveAPIWrapper) (sh : sheet)
    (file_format : file_format) (path : string) (filename : option string) : M unit :=
  let* format := split_format file_format in
  let '(mime_type, file_extension) := format in
  let* prepared :=
    match sh with
    | ASpreadsheet s =>
        if is_CSV_or_TSV file_format && (1 <? length (worksheets s))%nat then
          do for_each (worksheets s) (fun worksheet =>
               let* index := get_index worksheet in
               let* name := add_str filename (str_of_int index) in
               match depth with
               | O => fun w => (Unfinished, w)
               | S depth' =>
                   export_rec depth' self (AWorksheet worksheet) file_format path (Some name)
               end)
          then ret None
        else ret (Some (_export_request (ss_id s) mime_type, None))
    | AWorksheet ws =>
        let* tmp := get_index ws in
        do set_index ws 0 then
        ret (Some (_export_request (ws_spreadsheet_id ws) mime_type, Some tmp))
    end in
  match prepared with
  | None => ret tt
  | Some (request, tmp) =>
      let file_name :=
        match filename with
        | None => str_id sh +:+ file_extension
        | Some filename => filename +:+ file_extension
        end in
      let* fh := open_file (unwritable env) (path +:+ file_name) in
      let* downloader := (fun w => (Ok (serve env w request), w)) in
      do download_chunks request fh 0 (partial_chunks downloader) (ending downloader) then
      do emit (Info "Download finished. File saved in %s."
                 [VStr (path +:+ file_name +:+ file_extension)]) then
      match tmp, sh with
      | Some tmp, AWorksheet ws => set_index ws tmp
      | _, _ => ret tt
      end
  end.

Definition export := export_rec 1.

Definition invalid_role : string :=
  "A permission role can only be one of " +:+ str_of_names PERMISSION_ROLES +:+ ".".
Definition invalid_type : string :=
  "A permission role can only be one of " +:+ str_of_names PERMISSION_TYPES +:+ ".".

(** [if key in kwargs: body[key] = kwargs[key]; del kwargs[key]] *)
Definition move_key (key : string) (state : dict * dict) : dict * dict :=
  let '(body, kwargs) := state in
  match kwargs !! key with
  | Some v => (<[ key := v ]> body, base.delete key kwargs)
  | None => (body, kwargs)
  end.

(** [if 'supportsTeamDrives' not in kwargs and self.team_drive_id: ...] *)
Definition with_team_drive_support (self : DriveAPIWrapper) (kwargs : dict) : dict :=
  if negb (has_key kwargs "supportsTeamDrives") && team_drive_active self
  then <[ "supportsTeamDrives" := VBool true ]> kwargs
  else kwargs.

Definition create_permission (self : DriveAPIWrapper) (file_id role type : string)
    (kwargs : dict) : M (option dict) :=
  let kwargs := with_team_drive_support self kwargs in
  if has_key kwargs "emailAddress" && has_key kwargs "domain" then
    raise (InvalidArgumentValue
             "A permission can only use emailAddress or domain. Do not specify both.")
  else if negb (existsb (String.eqb role) PERMISSION_ROLES) then
    raise (InvalidArgumentValue invalid_role)
  else if negb (existsb (String.eqb type) PERMISSION_TYPES) then
    raise (InvalidArgumentValue invalid_type)
  else
    let body : dict :=
      {[ "kind" := VStr "drive#permission"; "type" := VStr type; "role" := VStr role ]} in
    let* state :=
      if has_key kwargs "emailAddress" then
        let* address := kwarg kwargs "emailAddress" in
        match address with
        | VStr text =>
            if re_match (_EMAIL_PATTERN unicode_alnum) text
            then ret (move_key "emailAddress" (body, kwargs))
            else raise (InvalidArgumentValue
                          ("The provided e-mail address doesn't have a valid format: "
                           +:+ text +:+ "."))
        | _ => raise (TypeError "expected string or bytes-like object")
        end
      else if has_key kwargs "domain" then ret (move_key "domain" (body, kwargs))
      else ret (body, kwargs) in
    let '(body, kwargs) := move_key "expirationTime" (move_key "allowFileDiscovery" state) in
    let* request := call permissions_create [("fileId", VStr file_id)] (Some body) kwargs in
    _execute_request self request.

(** The [while 'nextPageToken' in response] loop of [list_permissions]. *)
Fixpoint list_permissions_while (fuel : nat) (self : DriveAPIWrapper) (file_id : string)
    (kwargs : dict) (response : option dict) (permissions : list value)
    : M (list value) :=
  let* more := contains response "nextPageToken" in
  if more : bool then
    match fuel with
    | O => fun w => (Unfinished, w)
    | S fuel' =>
        let* token := subscript response "nextPageToken" in
        let* request :=
          call permissions_list [("fileId", VStr file_id); ("pageToken", token)] None kwargs in
        let* response := _execute_request self request in
        let* page := subscript response "permissions" in
        let* permissions := extend permissions page in
        list_permissions_while fuel' self file_id kwargs response permissions
    end
  else ret permissions.

Definition list_permissions (fuel : nat) (self : DriveAPIWrapper) (file_id : string)
    (kwargs : dict) : M (list value) :=
  let kwargs := with_team_drive_support self kwargs in
  let kwargs := if negb (has_key kwargs "fields") then <[ "fields" := VStr "*" ]> kwargs
                else kwargs in
  let permissions := [] in
  let* request := call permissions_list [("fileId", VStr file_id)] None kwargs in
  let* response := _execute_request self request in
  let* page := subscript response "permissions" in
  let* permissions := extend permissions page in
  list_permissions_while fuel self file_id kwargs response permissions.

Definition owner_pattern : regex := literal "The owner of a file cannot be removed.".

Definition delete_permission (self : DriveAPIWrapper) (file_id permission_id : string)
    (kwargs : dict) : M unit :=
  let kwargs := with_team_drive_support self kwargs in
  try_except_HttpError
    (let* request :=
       call permissions_delete
         [("fileId", VStr file_id); ("permissionId", VStr permission_id)] None kwargs in
     do _execute_request self request then ret tt)
    (fun error =>
       do emit (Exception (str error)) then
       if re_search owner_pattern (str error)
       then raise (CannotRemoveOwnerError "The owner of a file cannot be removed!")
       else raise (Provider error)).

Definition delete (self : DriveAPIWrapper) (file_id : string) (kwargs : dict) : M unit :=
  let* request := call files_delete [("fileId", VStr file_id)] None kwargs in
  do _execute_request self request then ret tt.

Definition move_file (self : DriveAPIWrapper) (file_id old_folder new_folder : string)
    (kwargs : dict) : M unit :=
  let* request :=
    call files_update [("fileId", VStr file_id); ("removeParents", VStr old_folder);
                       ("addParents", VStr new_folder)] None kwargs in
  do _execute_request self request then ret tt.

(** The [while 'nextPageToken' in response] loop of [list]; [fuel] bounds the
    number of iterations. *)
Fixpoint list_while (fuel : nat) (self : DriveAPIWrapper)
    (kwargs : dict) (response : option dict) (result : list value)
    : M (dict * option dict * list value) :=
  let* more := contains response "nextPageToken" in
  if more : bool then
    match fuel with
    | O => fun w => (Unfinished, w)
    | S fuel' =>
        let* token := subscript response "nextPageToken" in
        let kwargs := <[ "pageToken" := token ]> kwargs in
        let* response := _execute_request self (Request files_list kwargs None) in
        let* page := subscript response "files" in
        let* result := extend result page in
        list_while fuel' self kwargs response result
    end
  else ret (kwargs, response, result).

Definition list_warning : string :=
  "Not all files in the corpora %s were searched. As a result the response might be incomplete.".

Definition list (fuel : nat) (self : DriveAPIWrapper) (kwargs : dict) : M (list value) :=
  let result := [] in
  let* response := _execute_request self (Request files_list kwargs None) in
  let* page := subscript response "files" in
  let* result := extend result page in
  let* state := list_while fuel self kwargs response result in
  let '(kwargs, response, result) := state in
  let* incomplete :=
    (let* more := contains response "incompleteSearch" in
     if more : bool
     then let* flag := subscript response "incompleteSearch" in ret (truthy flag)
     else ret false) in
  do (if incomplete : bool
      then let* corpora := kwarg kwargs "corpora" in
           emit (Warning list_warning [corpora])
      else ret tt)
  then ret result.

Definition spreadsheet_metadata (fuel : nat) (self : DriveAPIWrapper) (query : string)
    : M (Datatypes.list value) :=
  let query :=
    if negb (String.eqb query "") then query +:+ " and " +:+ _spreadsheet_mime_type_query
    else _spreadsheet_mime_type_query in
  if team_drive_active self then
    list fuel self
      {[ "corpora" := VStr "teamDrive";
         "teamDriveId" := from_option VStr VNone (team_drive_id self);
         "supportsTeamDrives" := VBool true;
         "includeTeamDriveItems" := VBool true;
         "fields" := VStr "files(id, name, parents)";
         "q" := VStr query ]}
  else
    list fuel self {[ "fields" := VStr "files(id, name, parents)"; "q" := VStr query ]}.


End Methods.
End Drive.

(** ** Vocabulary of the properties *)

(** The error is classified as a timeout by [_execute_request]. *)
Definition timeout_classified (e : failure) : bool :=
  negb (find (repr e) "timed out" =? -1).

(** The world after [k] executions of [request]. *)
Fixpoint attempts (env : environment) (request : request) (k : nat) (w : world) : world :=
  match k with
  | O => w
  | S k' => attempts env request k' (snd (Drive.request_execute env request w))
  end.

(** What the provider answers to the attempt that follows [k] earlier ones. *)
Definition attempt (env : environment) (request : request) (k : nat) (w : world) : outcome :=
  execute env (attempts env request k w) request.

(** The provider interactions that took place between two states. *)
Definition sent (w w' : world) : list event :=
  drop (length (history w)) (history w').

(** The body names one grantee field and not the other. *)
Definition exactly_one_grantee (b : dict) : Prop :=
  (is_Some (b !! "emailAddress") /\ b !! "domain" = None)
  \/ (b !! "emailAddress" = None /\ is_Some (b !! "domain")).

(** Every string the expression matches contains an at sign (a syntactic,
    sufficient test). *)
Fixpoint requires_at (r : regex) : bool :=
  match r with
  | Nothing => true
  | Empty | Class _ | Star _ | Opt _ => false
  | Chr c => Ascii.eqb c "@"
  | Seq r s => requires_at r || requires_at s
  | Alt r s => requires_at r && requires_at s
  | Plus r => requires_at r
  end.

(** The request that [delete_permission] builds. *)
Definition delete_permission_request (self : DriveAPIWrapper)
    (file_id permission_id : string) (kwargs : dict) : request :=
  Request permissions_delete
    (list_to_map [("fileId", VStr file_id); ("permissionId", VStr permission_id)]
     ∪ Drive.with_team_drive_support self kwargs) None.

(** [k] more chunks written to a handle. *)
Definition more_written (k : nat) (h : file_handle) : file_handle :=
  FileHandle (name h) (k + written h) (closed h).

(** The chunks of a download that reach the local file. *)
Definition delivered (d : download) : list status :=
  partial_chunks d ++ match ending d with Completes st => [st] | Breaks _ => [] end.

Definition progress (st : status) : log_record :=
  Info "Download progress: %d%%." [VInt (percent st)].

(** The downloads started up to a point: the requests of the first chunks. *)
Definition downloads (h : list event) : list request :=
  omap (fun e => match e with Chunk r O => Some r | _ => None end) h.

(** The handles opened between two states. *)
Definition opened (w w' : world) : list file_handle :=
  drop (length (handles w)) (handles w').

(** The positions after a worksheet has been moved. *)
Definition moved (ws : Worksheet) (i : Z) (w : world) : nat -> Z :=
  fun o => if Nat.eqb o (ws_object ws) then i else index_of w o.

(** No handle was closed between two states: the handles of [w] are in
    [w'] as open or closed as they were, and the ones opened since are open. *)
Definition none_closed (w w' : world) : Prop :=
  exists k, closed <$> handles w' = (closed <$> handles w) ++ replicate k false.

(** A computation that closes no handle, however it ends. *)
Definition keeps_open {A} (m : M A) : Prop :=
  forall w, none_closed w (snd (m w)).

(** Every handle opened between two states has been closed. *)
Definition all_closed (w w' : world) : Prop :=
  forall h, h ∈ opened w w' -> closed h = true.

(** The provider answers the requests that follow [w] with the given
    responses, one after the other, whatever is asked. *)
Definition answers (env : environment) (w : world) (responses : list dict) : Prop :=
  forall w' q k r,
    length (history w') = (length (history w) + k)%nat ->
    responses !! k = Some r ->
    execute env w' q = Returns r.

(** The page of items of a response. *)
Definition page (key : string) (r : dict) : list value :=
  match r !! key with
  | Some (VList l) => l
  | _ => []
  end.

(** A sequence of responses in which each one has a page of items and
    carries a continuation token, except the last one, which has none. *)
Fixpoint paginated (key : string) (responses : list dict) : Prop :=
  match responses with
  | [] => False
  | r :: rest =>
      (exists l, r !! key = Some (VList l))
      /\ match rest with
         | [] => r !! "nextPageToken" = None
         | _ => is_Some (r !! "nextPageToken") /\ paginated key rest
         end
  end.

(** The keyword arguments of [list] once the pages have been followed. *)
Fixpoint followed (kwargs : dict) (responses : list dict) : dict :=
  match responses with
  | r :: (_ :: _) as rest =>
      match r !! "nextPageToken" with
      | Some token => followed (<[ "pageToken" := token ]> kwargs) rest
      | None => kwargs
      end
  | _ => kwargs
  end.

(** The requests of [list] for the pages after the first one. *)
Fixpoint next_pages (kwargs : dict) (responses : list dict) : list request :=
  match responses with
  | r :: (_ :: _) as rest =>
      match r !! "nextPageToken" with
      | Some token =>
          Request files_list (<[ "pageToken" := token ]> kwargs) None
          :: next_pages (<[ "pageToken" := token ]> kwargs) rest
      | None => []
      end
  | _ => []
  end.

(** The keyword arguments of [list_permissions] with their defaults. *)
Definition permission_kwargs (self : DriveAPIWrapper) (kwargs : dict) : dict :=
  let kwargs := Drive.with_team_drive_support self kwargs in
  if negb (has_key kwargs "fields") then <[ "fields" := VStr "*" ]> kwargs else kwargs.

(** The requests of [list_permissions] for the pages after the first one. *)
Fixpoint next_permission_pages (file_id : string) (kwargs : dict) (responses : list dict)
    : list request :=
  match responses with
  | r :: (_ :: _) as rest =>
      match r !! "nextPageToken" with
      | Some token =>
          Request permissions_list
            (list_to_map [("fileId", VStr file_id); ("pageToken", token)] ∪ kwargs) None
          :: next_permission_pages file_id kwargs rest
      | None => []
      end
  | _ => []
  end.

(** The final response reports an incomplete search. *)
Definition incomplete (r : dict) : bool :=
  match r !! "incompleteSearch" with
  | Some flag => truthy flag
  | None => false
  end.

(** The keywords that [create_permission] takes out of the request
    parameters and puts in the body. *)
Definition body_keywords : Datatypes.list string :=
  ["emailAddress"; "domain"; "allowFileDiscovery"; "expirationTime"].

(** The value of [supportsTeamDrives] that the permission operations send:
    the caller's when given, [True] on a team drive, none otherwise. *)
Definition team_drive_support (self : DriveAPIWrapper) (kwargs : dict) : option value :=
  match kwargs !! "supportsTeamDrives" with
  | Some v => Some v
  | None => if team_drive_active self then Some (VBool true) else None
  end.



(** How often a character occurs in a string. *)
Fixpoint occurrences (c : ascii) (s : string) : nat :=
  match s with
  | EmptyString => 0
  | String x s' => (if Ascii.eqb x c then 1 else 0) + occurrences c s'
  end.

(** The text that [export] splits: the value of a member of [ExportType],
    or the string given in its place. *)
Definition format_text (values : ExportType -> string) (f : file_format) : string :=
  match f with
  | Member e => values e
  | Plain s => s
  end.

(** ** Concrete scenarios *)

Definition w0 : world := World [] [] [] (fun _ => 0).

Definition fresh : DriveAPIWrapper := Wrapper None 2.

Definition ascii_only : ascii -> bool := fun _ => false.

Definition whole_file : download := Download [] (Completes (Status 100)).

(** A provider that accepts every request. *)
Definition accepting : environment :=
  Environment (fun _ _ => Returns ∅) (fun _ _ => whole_file) (fun _ => false) (fun _ => None).

Definition socket_timeout : failure :=
  Failure false "timeout('timed out')" "timed out".

Definition forbidden : failure :=
  Failure true "<HttpError 403 'Forbidden'>" "<HttpError 403 'Forbidden'>".

(** A provider that times out once and answers afterwards. *)
Definition flaky : environment :=
  Environment
    (fun w _ => if (length (history w) <? 1)%nat then Raises socket_timeout
                else Returns {[ "id" := VStr "1" ]})
    (fun _ _ => whole_file) (fun _ => false) (fun _ => None).

(** A provider that fails every request in the same way. *)
Definition failing (e : failure) : environment :=
  Environment (fun _ _ => Raises e) (fun _ _ => whole_file) (fun _ => false) (fun _ => None).

Definition gateway_timeout : failure :=
  Failure true "<HttpError 504 'The request timed out'>" "<HttpError 504 'The request timed out'>".

Definition owner_kept : failure :=
  Failure true "<HttpError 403 'The owner of a file cannot be removed.'>"
    "<HttpError 403 'The owner of a file cannot be removed.'>".

(** A table of values for the members of [ExportType]. *)
Definition sample_values (e : ExportType) : string :=
  match e with
  | CSV => "text/csv:.csv"
  | TSV => "text/tab-separated-values:.tsv"
  | OtherType _ => "application/pdf:.pdf"
  end.

Definition PDF : file_format := Member (OtherType "PDF").

(** A document with two worksheets, at the positions 0 and 1. *)
Definition first_sheet : Worksheet := Build_Worksheet 0 0 "doc".
Definition second_sheet : Worksheet := Build_Worksheet 1 1577 "doc".
Definition doc : Spreadsheet := Build_Spreadsheet "doc" [first_sheet; second_sheet].
Definition w_doc : world := World [] [] [] Z.of_nat.

(** A provider that serves every download in three chunks. *)
Definition slow : environment :=
  Environment (fun _ _ => Returns ∅)
    (fun _ _ => Download [Status 33; Status 66] (Completes (Status 100)))
    (fun _ => false) (fun _ => None).

(** A provider whose downloads break after the first chunk. *)
Definition breaking : environment :=
  Environment (fun _ _ => Returns ∅)
    (fun _ _ => Download [Status 50] (Breaks forbidden))
    (fun _ => false) (fun _ => None).

(** Two pages of files; the second one reports an incomplete search. *)
Definition first_page : dict :=
  {[ "files" := VList [VStr "a"]; "nextPageToken" := VStr "t1" ]}.
Definition last_page : dict :=
  {[ "files" := VList [VStr "b"]; "incompleteSearch" := VBool true ]}.

(** A provider that answers with these two pages, in this order. *)
Definition two_pages : environment :=
  Environment
    (fun w _ => match history w with [] => Returns first_page | _ => Returns last_page end)
    (fun _ _ => whole_file) (fun _ => false) (fun _ => None).

(** A provider that answers with the last page at once. *)
Definition one_page : environment :=
  Environment (fun _ _ => Returns last_page)
    (fun _ _ => whole_file) (fun _ => false) (fun _ => None).

(** Two pages of permissions. *)
Definition first_permissions : dict :=
  {[ "permissions" := VList [VStr "p"]; "nextPageToken" := VStr "t1" ]}.
Definition last_permissions : dict :=
  {[ "permissions" := VList [VStr "q"] ]}.

Definition two_permission_pages : environment :=
  Environment
    (fun w _ => match history w with
                | [] => Returns first_permissions
                | _ => Returns last_permissions
                end)
    (fun _ _ => whole_file) (fun _ => false) (fun _ => None).

(** The keyword arguments of a query by name only. *)
Definition by_name : dict := {[ "q" := VStr "name contains 'report'" ]}.

(** A provider that times out once and refuses afterwards. *)
Definition timeout_then_forbidden : environment :=
  Environment
    (fun w _ => if (length (history w) <? 1)%nat then Raises socket_timeout
                else Raises forbidden)
    (fun _ _ => whole_file) (fun _ => false) (fun _ => None).

(** A provider that cannot be reached, on a machine where the discovery
    document is in place. *)
Definition installed_unreachable : environment :=
  Environment (fun _ _ => Raises socket_timeout) (fun _ _ => whole_file) (fun _ => false)
    (fun path => if String.eqb path "data/drive_discovery.json" then Some (inl "{}")
                 else None).

(** The request of [get_update_time]. *)
Definition update_time_request (file_id : string) : request :=
  Request files_get {[ "fileId" := VStr file_id; "fields" := VStr "modifiedTime" ]} None.

(** The request of [move_file]. *)
Definition move_file_request (file_id old_folder new_folder : string) (kwargs : dict)
    : request :=
  Request files_update
    (list_to_map [("fileId", VStr file_id); ("removeParents", VStr old_folder);
                  ("addParents", VStr new_folder)] ∪ kwargs) None.

(** A provider that answers every request with a modification time. *)
Definition dated : environment :=
  Environment (fun _ _ => Returns {[ "modifiedTime" := VStr "2018-01-01T00:00:00.000Z" ]})
    (fun _ _ => whole_file) (fun _ => false) (fun _ => None).

(** A wrapper that was pointed at a team drive. *)
Definition on_team_drive : DriveAPIWrapper := Drive.enable_team_drive fresh (Some "0ABCdrive").

(** Keywords of a [create_permission] call that shares with one person
    without a notification. *)
Definition share_quietly : dict :=
  {[ "emailAddress" := VStr "someone@example.org";
     "expirationTime" := VStr "2019-01-01T00:00:00.000Z";
     "sendNotificationEmail" := VBool false ]}.

(** The request of [delete]. *)
Definition delete_request (file_id : string) (kwargs : dict) : request :=
  Request files_delete (list_to_map [("fileId", VStr file_id)] ∪ kwargs) None.

(** A wrapper that was given the empty string for a team drive. *)
Definition on_nameless_drive : DriveAPIWrapper :=
  Drive.enable_team_drive fresh (Some EmptyString).

Definition a_request : request := Request files_get {[ "fileId" := VStr "file" ]} None.

(** * Properties *)

(** ** The monad *)

Lemma bind_ret {A B} (a : A) (f : A -> M B) w : bind (ret a) f w = f a w.
Proof. reflexivity. Qed.

Lemma bind_raise {A B} e (f : A -> M B) w : bind (raise e) f w = (Raise e, w).
Proof. reflexivity. Qed.

Lemma bind_assoc {A B C} (m : M A) (f : A -> M B) (g : B -> M C) w :
  bind (bind m f) g w = bind m (fun a => bind (f a) g) w.
Proof. unfold bind. by destruct (m w) as [[a|e|] w']. Qed.

Lemma bind_finishes {A B} (m : M A) (f : A -> M B) w :
  fst (m w) <> Unfinished ->
  (forall a w', fst (f a w') <> Unfinished) ->
  fst (bind m f w) <> Unfinished.
Proof.
  intros Hm Hf. unfold bind. destruct (m w) as [[a|e|] w']; [apply Hf|done|done].
Qed.

Lemma for_each_finishes {A} (body : A -> M unit) l :
  (forall x w, fst (body x w) <> Unfinished) ->
  forall w, fst (for_each l body w) <> Unfinished.
Proof.
  intros Hbody. induction l as [|x l IH]; intros w; [done|].
  cbn [for_each]. apply bind_finishes; [apply Hbody|intros _; apply IH].
Qed.

(** ** The request executor *)

Section Executor.

Variable env : environment.
Variable self : DriveAPIWrapper.
Variable request : request.

Lemma attempts_S k w :
  attempts env request (S k) w
  = snd (Drive.request_execute env request (attempts env request k w)).
Proof.
  revert w. induction k as [|k IH]; intros w; [reflexivity|].
  change (attempts env request (S (S k)) w)
    with (attempts env request (S k) (snd (Drive.request_execute env request w))).
  rewrite IH. reflexivity.
Qed.

Lemma attempts_history k w :
  history (attempts env request k w) = history w ++ replicate k (Executed request).
Proof.
  revert w. induction k as [|k IH]; intros w; simpl.
  - by rewrite app_nil_r.
  - rewrite IH. simpl. by rewrite <- app_assoc.
Qed.

Lemma attempts_frame k w :
  logs (attempts env request k w) = logs w
  /\ handles (attempts env request k w) = handles w
  /\ index_of (attempts env request k w) = index_of w.
Proof.
  revert w. induction k as [|k IH]; intros w; [done|].
  cbn [attempts].
  destruct (IH (snd (Drive.request_execute env request w))) as (H1 & H2 & H3).
  rewrite H1, H2, H3. done.
Qed.

(** The loop, started at iteration [i] with [m] iterations left: as long as
    the provider answers with timeout-classified errors the loop goes on. *)
Lemma loop_after_timeouts m : forall i k w,
  (k <= m)%nat ->
  (forall j, (j < k)%nat -> exists e,
      attempt env request j w = Raises e /\ timeout_classified e = true) ->
  Z.of_nat i + Z.of_nat k < retries self ->
  Drive._execute_request_loop env self request (map Z.of_nat (seq i m)) w
  = Drive._execute_request_loop env self request (map Z.of_nat (seq (i + k) (m - k)))
      (attempts env request k w).
Proof.
  induction m as [|m IH]; intros i k w Hk Hto Hlt.
  - assert (k = 0)%nat as -> by lia. by rewrite Nat.add_0_r.
  - destruct k as [|k].
    + by rewrite Nat.add_0_r.
    + destruct (Hto 0%nat) as (e & He & Hc); [lia|].
      unfold attempt in He. simpl in He.
      cbn [seq map Drive._execute_request_loop]. unfold Drive.request_execute at 1.
      rewrite He. unfold timeout_classified in Hc. apply negb_true_iff in Hc.
      rewrite Hc.
      destruct (Z.eqb_spec (Z.of_nat i) (retries self - 1)) as [Heq|_]; [lia|].
      rewrite (IH (S i) k); [| lia | | lia].
      * replace (S i + k)%nat with (i + S k)%nat by lia. reflexivity.
      * intros j Hj. apply (Hto (S j)). lia.
Qed.

End Executor.

(** The executor after [k] timeouts, when the next attempt settles the call. *)
Lemma execute_request_settled env self request w k :
  Z.of_nat k < retries self ->
  (forall j, (j < k)%nat -> exists e,
      attempt env request j w = Raises e /\ timeout_classified e = true) ->
  match attempt env request k w with
  | Returns v =>
      Drive._execute_request env self request w
      = (Ok (Some v), attempts env request (S k) w)
  | Raises e =>
      timeout_classified e = false ->
      Drive._execute_request env self request w
      = (Raise (Provider e), attempts env request (S k) w)
  end.
Proof.
  intros Hk Hto. unfold Drive._execute_request, range.
  rewrite (loop_after_timeouts env self request _ 0 k w); [| lia | done | lia].
  replace (Z.to_nat (retries self) - k)%nat
    with (S (Z.to_nat (retries self) - S k)) by lia.
  cbn [seq map Drive._execute_request_loop]. unfold Drive.request_execute.
  rewrite attempts_S. unfold attempt, Drive.request_execute.
  destruct (execute env (attempts env request k w) request) as [v|e]; [done|].
  unfold timeout_classified. intros Hc%negb_false_iff. by rewrite Hc.
Qed.

(** The executor when every attempt of the budget times out. *)
Lemma execute_request_exhausted env self request w :
  0 < retries self ->
  (forall j, (j < Z.to_nat (retries self))%nat -> exists e,
      attempt env request j w = Raises e /\ timeout_classified e = true) ->
  exists e,
    attempt env request (Z.to_nat (retries self) - 1) w = Raises e
    /\ Drive._execute_request env self request w
       = (Raise (RequestError ("Timeout : " +:+ repr e)),
          attempts env request (Z.to_nat (retries self)) w).
Proof.
  intros Hpos Hall.
  destruct (Z.to_nat (retries self)) as [|m] eqn:Hn; [lia|].
  replace (S m - 1)%nat with m by lia.
  destruct (Hall m) as (e & He & Hc); [lia|].
  exists e. split; [done|].
  unfold Drive._execute_request, range. rewrite Hn.
  rewrite (loop_after_timeouts env self request (S m) 0 m w); [| lia | | lia].
  - replace (S m - m)%nat with 1%nat by lia.
    cbn [seq map Drive._execute_request_loop]. unfold Drive.request_execute.
    unfold attempt in He. rewrite He.
    unfold timeout_classified in Hc. apply negb_true_iff in Hc. rewrite Hc.
    replace (Z.of_nat (0 + m) =? retries self - 1) with true
      by (symmetry; apply Z.eqb_eq; lia).
    by rewrite attempts_S.
  - intros j Hj. apply Hall. lia.
Qed.

Lemma execute_request_answered env self request w r :
  0 < retries self ->
  execute env w request = Returns r ->
  Drive._execute_request env self request w
  = (Ok (Some r), World (history w ++ [Executed request]) (logs w) (handles w) (index_of w)).
Proof.
  intros Hpos Hr.
  pose proof (execute_request_settled env self request w 0) as Hex.
  unfold attempt in Hex. cbn [attempts] in Hex. rewrite Hr in Hex.
  apply Hex; [lia|]. intros j Hj. lia.
Qed.

(** C1.  With a positive retry budget [n]: a request that raises a
    timeout-classified error [n - 1] times and then succeeds yields the
    success value; a request that always raises a timeout-classified error
    yields [RequestError] carrying the text of the failure, after exactly
    [n] executions; a request whose first execution raises an error that is
    not timeout-classified yields that very error after one execution. *)
Theorem execute_request_retries env self request w :
  0 < retries self ->
  let n := Z.to_nat (retries self) in
  (forall v,
      (forall j, (j < n - 1)%nat -> exists e,
          attempt env request j w = Raises e /\ timeout_classified e = true) ->
      attempt env request (n - 1) w = Returns v ->
      Drive._execute_request env self request w
      = (Ok (Some v), attempts env request n w))
  /\ ((forall j, exists e,
          attempt env request j w = Raises e /\ timeout_classified e = true) ->
      exists e,
        attempt env request (n - 1) w = Raises e
        /\ Drive._execute_request env self request w
           = (Raise (RequestError ("Timeout : " +:+ repr e)), attempts env request n w)
        /\ history (attempts env request n w)
           = history w ++ replicate n (Executed request))
  /\ (forall e,
      attempt env request 0 w = Raises e ->
      timeout_classified e = false ->
      Drive._execute_request env self request w
      = (Raise (Provider e), attempts env request 1 w)
      /\ history (attempts env request 1 w) = history w ++ [Executed request]).
Proof.
  intros Hpos n.
  assert (Hn : (n = S (n - 1))%nat) by (subst n; lia).
  split; [|split].
  - intros v Hto Hok.
    pose proof (execute_request_settled env self request w (n - 1)) as Hex.
    rewrite Hok, <- Hn in Hex. apply Hex; [subst n; lia|done].
  - intros Hall.
    destruct (execute_request_exhausted env self request w Hpos) as (e & He & Hex).
    { intros j _. apply Hall. }
    exists e. split; [done|]. split; [done|]. apply attempts_history.
  - intros e He Hc. split; [|apply attempts_history].
    pose proof (execute_request_settled env self request w 0) as Hex.
    rewrite He in Hex. apply Hex; [lia| |done]. intros j Hj. lia.
Qed.

Lemma execute_request_retries_witness :
  0 < retries fresh
  /\ Drive._execute_request flaky fresh a_request w0
     = (Ok (Some {[ "id" := VStr "1" ]}), attempts flaky a_request 2 w0)
  /\ Drive._execute_request (failing socket_timeout) fresh a_request w0
     = (Raise (RequestError "Timeout : timeout('timed out')"),
        attempts (failing socket_timeout) a_request 2 w0)
  /\ Drive._execute_request (failing forbidden) fresh a_request w0
     = (Raise (Provider forbidden), attempts (failing forbidden) a_request 1 w0).
Proof.
  split; [reflexivity|]. split; [|split].
  - apply (proj1 (execute_request_retries flaky fresh a_request w0 eq_refl)).
    + intros j Hj. exists socket_timeout.
      destruct j as [|j]; [split; reflexivity|]. simpl in Hj. lia.
    + reflexivity.
  - destruct (proj1 (proj2 (execute_request_retries (failing socket_timeout) fresh a_request w0
                              eq_refl))) as (e & He & Hrun & _).
    + intros j. exists socket_timeout. split; reflexivity.
    + injection He as <-. exact Hrun.
  - apply (proj2 (proj2 (execute_request_retries (failing forbidden) fresh a_request w0 eq_refl))).
    + reflexivity.
    + reflexivity.
Defined.

(** C10.  With a retry budget that is zero or negative, [_execute_request]
    returns [None] for every request: nothing is sent to the provider, no
    error is raised and the state is left as it was. *)
Theorem execute_request_without_budget env self request w :
  retries self <= 0 ->
  Drive._execute_request env self request w = (Ok None, w).
Proof.
  intros Hle. unfold Drive._execute_request, range.
  replace (Z.to_nat (retries self)) with 0%nat by lia. reflexivity.
Qed.

Lemma execute_request_without_budget_witness :
  retries (Wrapper None 0) <= 0
  /\ Drive._execute_request flaky (Wrapper None 0) a_request w0 = (Ok None, w0).
Proof.
  split; [simpl; lia|].
  apply execute_request_without_budget. simpl. lia.
Defined.

(** Without a retry budget the callers get [None]: [delete] ends quietly,
    [list] fails when it subscripts the response. *)
Lemma delete_without_budget env self file_id w :
  retries self <= 0 ->
  Drive.delete env self file_id ∅ w = (Ok tt, w).
Proof.
  intros Hle. unfold Drive.delete, bind, call. simpl.
  unfold Drive._execute_request, range.
  replace (Z.to_nat (retries self)) with 0%nat by lia. reflexivity.
Qed.

Lemma list_without_budget env fuel self (kwargs : dict) w :
  retries self <= 0 ->
  Drive.list env fuel self kwargs w
  = (Raise (TypeError "'NoneType' object is not subscriptable"), w).
Proof.
  intros Hle. unfold Drive.list. unfold bind at 1.
  unfold Drive._execute_request, range.
  replace (Z.to_nat (retries self)) with 0%nat by lia. reflexivity.
Qed.

(** ** What the executor leaves behind *)

Lemma execute_loop_world env self request iter : forall w,
  exists k, snd (Drive._execute_request_loop env self request iter w)
            = attempts env request k w.
Proof.
  induction iter as [|i rest IH]; intros w.
  - by exists 0%nat.
  - cbn [Drive._execute_request_loop]. unfold Drive.request_execute.
    destruct (execute env w request) as [response|e].
    + by exists 1%nat.
    + destruct (find (repr e) "timed out" =? -1); [by exists 1%nat|].
      destruct (i =? retries self - 1); [by exists 1%nat|].
      destruct (IH (snd (Drive.request_execute env request w))) as [k Hk].
      exists (S k). exact Hk.
Qed.

Lemma execute_request_world env self request w :
  exists k, snd (Drive._execute_request env self request w) = attempts env request k w.
Proof. apply execute_loop_world. Qed.

Lemma execute_request_sent env self request w q :
  Executed q ∈ sent w (snd (Drive._execute_request env self request w)) -> q = request.
Proof.
  destruct (execute_request_world env self request w) as [k ->].
  unfold sent. rewrite attempts_history, drop_app_length.
  intros Hin. apply elem_of_replicate in Hin as [Heq _]. congruence.
Qed.

Lemma sent_nothing w q : Executed q ∈ sent w w -> False.
Proof. unfold sent. rewrite drop_all. apply not_elem_of_nil. Qed.

(** ** Keyword arguments and request bodies *)

Lemma has_key_true (d : dict) k : has_key d k = true <-> is_Some (d !! k).
Proof. unfold has_key. apply bool_decide_eq_true. Qed.

Lemma has_key_false (d : dict) k : has_key d k = false <-> d !! k = None.
Proof. unfold has_key. rewrite bool_decide_eq_false. symmetry. apply eq_None_not_Some. Qed.

Lemma move_key_body key k (st : dict * dict) :
  k <> key -> (Drive.move_key key st).1 !! k = st.1 !! k.
Proof.
  intros Hne. destruct st as [b kw]. unfold Drive.move_key.
  destruct (kw !! key); simpl; [|done]. by rewrite lookup_insert_ne.
Qed.

Lemma move_key_moved key (st : dict * dict) :
  (Drive.move_key key st).1 !! key
  = match st.2 !! key with Some v => Some v | None => st.1 !! key end.
Proof.
  destruct st as [b kw]. unfold Drive.move_key. simpl.
  destruct (kw !! key); simpl; [|done]. by rewrite lookup_insert_eq.
Qed.

Lemma move_key_kwargs key k (st : dict * dict) :
  (Drive.move_key key st).2 !! k = if decide (k = key) then None else st.2 !! k.
Proof.
  destruct st as [b kw]. unfold Drive.move_key. simpl.
  destruct (kw !! key) eqn:Hk; simpl.
  - rewrite lookup_delete. destruct (decide (key = k)), (decide (k = key)); congruence.
  - destruct (decide (k = key)); congruence.
Qed.

Lemma team_drive_support_other self (kwargs : dict) k :
  k <> "supportsTeamDrives" -> Drive.with_team_drive_support self kwargs !! k = kwargs !! k.
Proof.
  intros Hne. unfold Drive.with_team_drive_support.
  destruct (_ && _); [|done]. by rewrite lookup_insert_ne.
Qed.

(** How [call] ends. *)
Lemma call_cases method explicit b (kwargs : dict) w :
  (exists k, k ∈ map fst explicit ++ match b with Some _ => ["body"] | None => [] end
             /\ is_Some (kwargs !! k)
             /\ call method explicit b kwargs w
                = (Raise (TypeError ("got multiple values for keyword argument '" +:+ k +:+ "'")), w))
  \/ ((forall k, k ∈ map fst explicit ++ match b with Some _ => ["body"] | None => [] end ->
                 kwargs !! k = None)
      /\ call method explicit b kwargs w
         = (Ok (Request method (list_to_map explicit ∪ kwargs) b), w)).
Proof.
  unfold call.
  destruct (List.find _ _) as [k|] eqn:Hfind.
  - left. exists k. apply find_some in Hfind as [Hin Hk].
    split; [by apply list_elem_of_In|]. split; [by apply has_key_true|done].
  - right. split; [|done]. intros k Hin. apply has_key_false.
    apply list_elem_of_In in Hin. exact (find_none _ _ Hfind k Hin).
Qed.

Lemma call_built method explicit (kwargs : dict) w :
  (forall k, k ∈ map fst explicit -> kwargs !! k = None) ->
  call method explicit None kwargs w
  = (Ok (Request method (list_to_map explicit ∪ kwargs) None), w).
Proof.
  intros Hfree.
  destruct (call_cases method explicit None kwargs w)
    as [(k & Hin & [v Hv] & _)|[_ Hcall]]; [|done].
  rewrite app_nil_r in Hin. rewrite (Hfree k Hin) in Hv. discriminate.
Qed.

(** ** Creating permissions *)

(** The part of [create_permission] that follows the choice between the
    grantee fields: it sends the request, or stops on a keyword given twice. *)
Lemma create_permission_send env self file_id (st : dict * dict) w :
  let run :=
    (let '(body, kwargs) :=
       Drive.move_key "expirationTime" (Drive.move_key "allowFileDiscovery" st) in
     let* request := call permissions_create [("fileId", VStr file_id)] (Some body) kwargs in
     Drive._execute_request env self request) w in
  (exists msg, run = (Raise (TypeError msg), w)
     /\ (is_Some (st.2 !! "fileId") \/ is_Some (st.2 !! "body")))
  \/ (exists params b,
        run = Drive._execute_request env self (Request permissions_create params (Some b)) w
        /\ b !! "emailAddress" = st.1 !! "emailAddress"
        /\ b !! "domain" = st.1 !! "domain").
Proof.
  destruct (Drive.move_key "expirationTime" (Drive.move_key "allowFileDiscovery" st))
    as [b k] eqn:Hst. cbv zeta.
  assert (Hb : forall key, key <> "expirationTime" -> key <> "allowFileDiscovery" ->
                           b !! key = st.1 !! key).
  { intros key H1 H2. change b with (b, k).1. rewrite <- Hst.
    by rewrite !move_key_body. }
  assert (Hk : forall key, key <> "expirationTime" -> key <> "allowFileDiscovery" ->
                           k !! key = st.2 !! key).
  { intros key H1 H2. change k with (b, k).2. rewrite <- Hst.
    rewrite !move_key_kwargs. by rewrite !decide_False. }
  destruct (call_cases permissions_create [("fileId", VStr file_id)] (Some b) k w)
    as [(key & Hin & Hsome & Hcall)|[_ Hcall]].
  - left. eexists. unfold bind. rewrite Hcall. split; [reflexivity|].
    simpl in Hin. apply elem_of_cons in Hin as [->|Hin].
    + left. by rewrite <- Hk.
    + apply list_elem_of_singleton in Hin as ->. right. by rewrite <- Hk.
  - right. eexists _, b. unfold bind. rewrite Hcall. split; [reflexivity|].
    split; by apply Hb.
Qed.

Lemma create_permission_cases env ua self file_id role type (kwargs : dict) w :
  let run := Drive.create_permission env ua self file_id role type kwargs w in
  (exists msg, run = (Raise (InvalidArgumentValue msg), w)
     /\ ((is_Some (kwargs !! "emailAddress") /\ is_Some (kwargs !! "domain"))
         \/ existsb (String.eqb role) PERMISSION_ROLES = false
         \/ existsb (String.eqb type) PERMISSION_TYPES = false
         \/ exists text, kwargs !! "emailAddress" = Some (VStr text)
                         /\ re_match (_EMAIL_PATTERN ua) text = false))
  \/ (exists msg, run = (Raise (TypeError msg), w)
        /\ ~ (is_Some (kwargs !! "emailAddress") /\ is_Some (kwargs !! "domain"))
        /\ (forall text, kwargs !! "emailAddress" = Some (VStr text) ->
                         re_match (_EMAIL_PATTERN ua) text = true)
        /\ ((exists v, kwargs !! "emailAddress" = Some v /\ forall text, v <> VStr text)
            \/ is_Some (kwargs !! "fileId") \/ is_Some (kwargs !! "body")))
  \/ (exists params b,
        run = Drive._execute_request env self (Request permissions_create params (Some b)) w
        /\ b !! "emailAddress" = kwargs !! "emailAddress"
        /\ b !! "domain" = kwargs !! "domain"
        /\ ~ (is_Some (kwargs !! "emailAddress") /\ is_Some (kwargs !! "domain"))
        /\ (forall text, kwargs !! "emailAddress" = Some (VStr text) ->
                         re_match (_EMAIL_PATTERN ua) text = true)
        /\ existsb (String.eqb role) PERMISSION_ROLES = true
        /\ existsb (String.eqb type) PERMISSION_TYPES = true).
Proof.
  intros run. subst run. unfold Drive.create_permission.
  set (kw := Drive.with_team_drive_support self kwargs).
  assert (Hkw : forall key, key <> "supportsTeamDrives" -> kw !! key = kwargs !! key)
    by (intros; by apply team_drive_support_other).
  destruct (has_key kw "emailAddress" && has_key kw "domain") eqn:Hboth.
  { left. eexists. split; [reflexivity|]. left.
    apply andb_true_iff in Hboth as [H1 H2].
    apply has_key_true in H1, H2. by rewrite <- !Hkw. }
  assert (Hnot : ~ (is_Some (kwargs !! "emailAddress") /\ is_Some (kwargs !! "domain"))).
  { intros [H1 H2]. rewrite <- Hkw in H1, H2 by done.
    apply has_key_true in H1, H2. rewrite H1, H2 in Hboth. done. }
  destruct (existsb (String.eqb role) PERMISSION_ROLES) eqn:Hrole; cbn [negb];
    [|left; eexists; split; [reflexivity|]; auto].
  destruct (existsb (String.eqb type) PERMISSION_TYPES) eqn:Htype; cbn [negb];
    [|left; eexists; split; [reflexivity|]; auto].
  set (body0 := ({[ "kind" := VStr "drive#permission"; "type" := VStr type;
                    "role" := VStr role ]} : dict)).
  assert (Hb0e : body0 !! "emailAddress" = None) by done.
  assert (Hb0d : body0 !! "domain" = None) by done.
  assert (Hsend : forall st : dict * dict,
    st.1 !! "emailAddress" = kwargs !! "emailAddress" ->
    st.1 !! "domain" = kwargs !! "domain" ->
    (forall key, is_Some (st.2 !! key) -> is_Some (kwargs !! key) \/ key = "supportsTeamDrives") ->
    (forall text, kwargs !! "emailAddress" = Some (VStr text) ->
                  re_match (_EMAIL_PATTERN ua) text = true) ->
    forall tail, tail = (let '(body, kwargs) :=
       Drive.move_key "expirationTime" (Drive.move_key "allowFileDiscovery" st) in
     let* request := call permissions_create [("fileId", VStr file_id)] (Some body) kwargs in
     Drive._execute_request env self request) w ->
    (exists msg, tail = (Raise (TypeError msg), w)
        /\ ~ (is_Some (kwargs !! "emailAddress") /\ is_Some (kwargs !! "domain"))
        /\ (forall text, kwargs !! "emailAddress" = Some (VStr text) ->
                         re_match (_EMAIL_PATTERN ua) text = true)
        /\ ((exists v, kwargs !! "emailAddress" = Some v /\ forall text, v <> VStr text)
            \/ is_Some (kwargs !! "fileId") \/ is_Some (kwargs !! "body")))
    \/ (exists params b,
        tail = Drive._execute_request env self (Request permissions_create params (Some b)) w
        /\ b !! "emailAddress" = kwargs !! "emailAddress"
        /\ b !! "domain" = kwargs !! "domain"
        /\ ~ (is_Some (kwargs !! "emailAddress") /\ is_Some (kwargs !! "domain"))
        /\ (forall text, kwargs !! "emailAddress" = Some (VStr text) ->
                         re_match (_EMAIL_PATTERN ua) text = true)
        /\ true = true /\ true = true)).
  { intros st He Hd Hsub Hwf tail ->.
    destruct (create_permission_send env self file_id st w)
      as [(msg & Hrun & Hdup)|(params & b & Hrun & Hbe & Hbd)].
    - left. exists msg. split; [done|]. split; [done|]. split; [done|]. right.
      destruct Hdup as [Hdup|Hdup]; apply Hsub in Hdup as [?|?]; auto; done.
    - right. exists params, b. rewrite Hbe, Hbd. done. }
  destruct (has_key kw "emailAddress") eqn:Hhas.
  - apply has_key_true in Hhas as [v Hv]. rewrite bind_assoc. unfold kwarg. rewrite Hv, bind_ret.
    assert (Hv' : kwargs !! "emailAddress" = Some v) by (by rewrite <- Hkw).
    destruct v as [| | |text| |];
      try (right; left; eexists; split; [reflexivity|]; split; [exact Hnot|]; split;
           [intros text Ht; congruence | left; eexists; split; [done|]; done]).
    destruct (re_match (_EMAIL_PATTERN ua) text) eqn:Hre.
    + rewrite bind_ret. right. eapply Hsend; [| | | |reflexivity].
      * rewrite move_key_moved. cbn [fst snd]. by rewrite Hv.
      * rewrite move_key_body by done. cbn [fst]. rewrite Hb0d.
        destruct (kwargs !! "domain") eqn:Hdm; [|done].
        exfalso. apply Hnot. by rewrite Hv'.
      * intros key Hkey. rewrite move_key_kwargs in Hkey. cbn [snd] in Hkey.
        destruct (decide (key = "emailAddress")); [by destruct Hkey|].
        destruct (decide (key = "supportsTeamDrives")); [by right|].
        left. by rewrite <- Hkw.
      * intros t Ht. congruence.
    + left. eexists. rewrite bind_raise. split; [reflexivity|].
      right; right; right. by exists text.
  - apply has_key_false in Hhas.
    assert (Hnone : kwargs !! "emailAddress" = None) by (by rewrite <- Hkw).
    assert (Hsub : forall key, is_Some (kw !! key) ->
                               is_Some (kwargs !! key) \/ key = "supportsTeamDrives").
    { intros key Hkey. destruct (decide (key = "supportsTeamDrives")); [by right|].
      left. by rewrite <- Hkw. }
    destruct (has_key kw "domain") eqn:Hhd.
    + rewrite bind_ret. right. eapply Hsend; [| | | |reflexivity].
      * rewrite move_key_body by done. cbn [fst]. by rewrite Hnone.
      * rewrite move_key_moved. cbn [fst snd]. apply has_key_true in Hhd as [d Hd].
        rewrite Hd. by rewrite <- Hkw.
      * intros key Hkey. rewrite move_key_kwargs in Hkey. cbn [snd] in Hkey.
        destruct (decide (key = "domain")); [by destruct Hkey|]. by apply Hsub.
      * intros t Ht. congruence.
    + rewrite bind_ret. right. eapply Hsend; [| | | |reflexivity].
      * cbn [fst]. by rewrite Hnone.
      * cbn [fst]. apply has_key_false in Hhd. rewrite Hb0d. by rewrite <- Hkw.
      * exact Hsub.
      * intros t Ht. congruence.
Qed.

(** Every request that [create_permission] gets executed is the one it
    built, with the grantee fields the caller supplied. *)
Lemma create_permission_sent env ua self file_id role type (kwargs : dict) w q :
  Executed q ∈ sent w (snd (Drive.create_permission env ua self file_id role type kwargs w)) ->
  exists b, body q = Some b
    /\ b !! "emailAddress" = kwargs !! "emailAddress"
    /\ b !! "domain" = kwargs !! "domain"
    /\ ~ (is_Some (kwargs !! "emailAddress") /\ is_Some (kwargs !! "domain"))
    /\ (forall text, kwargs !! "emailAddress" = Some (VStr text) ->
                     re_match (_EMAIL_PATTERN ua) text = true).
Proof.
  destruct (create_permission_cases env ua self file_id role type kwargs w)
    as [(msg & -> & _)|[(msg & -> & _)|(params & b & -> & He & Hd & Hnot & Hwf & _)]];
    cbn [snd].
  - intros Hin. by apply sent_nothing in Hin.
  - intros Hin. by apply sent_nothing in Hin.
  - intros Hin. apply execute_request_sent in Hin as ->. by exists b.
Qed.

(** C5, as the code has it.  A request body sent by [create_permission]
    never carries both the grantee email and the grantee domain, and a call
    that supplies both is rejected with [InvalidArgumentValue] before anything
    is sent.  A call that supplies neither is not rejected, whatever the
    grantee type: its body carries neither field. *)
Theorem permission_body_at_most_one_grantee env ua self file_id role type (kwargs : dict) w :
  (forall q,
      Executed q ∈ sent w (snd (Drive.create_permission env ua self file_id role type kwargs w)) ->
      exists b, body q = Some b
        /\ ~ (is_Some (b !! "emailAddress") /\ is_Some (b !! "domain")))
  /\ (is_Some (kwargs !! "emailAddress") -> is_Some (kwargs !! "domain") ->
      exists msg, Drive.create_permission env ua self file_id role type kwargs w
                  = (Raise (InvalidArgumentValue msg), w))
  /\ (kwargs !! "emailAddress" = None -> kwargs !! "domain" = None ->
      role ∈ PERMISSION_ROLES -> type ∈ PERMISSION_TYPES ->
      kwargs !! "fileId" = None -> kwargs !! "body" = None ->
      exists params b,
        Drive.create_permission env ua self file_id role type kwargs w
        = Drive._execute_request env self (Request permissions_create params (Some b)) w
        /\ b !! "emailAddress" = None /\ b !! "domain" = None).
Proof.
  split; [|split].
  - intros q Hin.
    apply create_permission_sent in Hin as (b & Hb & He & Hd & Hnot & _).
    exists b. split; [done|]. by rewrite He, Hd.
  - intros He Hd.
    destruct (create_permission_cases env ua self file_id role type kwargs w)
      as [(msg & Hrun & _)|[(msg & _ & Hnot & _)|(params & b & _ & _ & _ & Hnot & _)]].
    + by exists msg.
    + by destruct Hnot.
    + by destruct Hnot.
  - intros He Hd Hrole Htype Hf Hb.
    assert (Hr : existsb (String.eqb role) PERMISSION_ROLES = true).
    { apply existsb_exists. exists role. split; [by apply list_elem_of_In|apply String.eqb_refl]. }
    assert (Ht : existsb (String.eqb type) PERMISSION_TYPES = true).
    { apply existsb_exists. exists type. split; [by apply list_elem_of_In|apply String.eqb_refl]. }
    destruct (create_permission_cases env ua self file_id role type kwargs w)
      as [(msg & _ & [[[? ?] _]|[?|[?|(text & ? & _)]]])
         |[(msg & _ & _ & _ & [(v & ? & _)|[[? ?]|[? ?]]])
          |(params & b & Hrun & Hbe & Hbd & _)]]; try congruence.
    exists params, b. split; [done|]. by rewrite Hbe, Hbd.
Qed.

Lemma create_permission_sends_neither :
  ~ (forall q,
       Executed q ∈ sent w0 (snd (Drive.create_permission accepting ascii_only fresh
                                    "file" "reader" "user" ∅ w0)) ->
       exists b, body q = Some b /\ exactly_one_grantee b).
Proof.
  intros H.
  destruct (H (Request permissions_create {[ "fileId" := VStr "file" ]}
                 (Some {[ "kind" := VStr "drive#permission"; "type" := VStr "user";
                          "role" := VStr "reader" ]}))) as (b & Hb & Hone).
  - vm_compute. left.
  - injection Hb as <-. destruct Hone as [[[v Hv] _]|[_ [v Hv]]]; vm_compute in Hv; discriminate.
Qed.

Lemma permission_body_at_most_one_grantee_witness :
  (exists msg,
     Drive.create_permission accepting ascii_only fresh "file" "reader" "user"
       {[ "emailAddress" := VStr "a@b.c"; "domain" := VStr "b.c" ]} w0
     = (Raise (InvalidArgumentValue msg), w0))
  /\ (exists params b,
        Drive.create_permission accepting ascii_only fresh "file" "reader" "user" ∅ w0
        = Drive._execute_request accepting fresh (Request permissions_create params (Some b)) w0
        /\ b !! "emailAddress" = None /\ b !! "domain" = None).
Proof.
  split.
  - apply (proj1 (proj2 (permission_body_at_most_one_grantee accepting ascii_only fresh
                           "file" "reader" "user" _ w0))); vm_compute; eauto.
  - apply (proj2 (proj2 (permission_body_at_most_one_grantee accepting ascii_only fresh
                           "file" "reader" "user" ∅ w0)));
      try reflexivity; vm_compute; repeat constructor.
Defined.

(** ** The shape of an email address *)

Lemma requires_at_not_nullable r : requires_at r = true -> nullable r = false.
Proof.
  induction r as [| |c|p|r IHr s IHs|r IHr s IHs|r IHr|r IHr|r IHr]; simpl; try done.
  - intros [H|H]%orb_true_iff; [rewrite IHr by done|rewrite IHs by done]; auto using andb_false_r.
  - intros [H1 H2]%andb_true_iff. by rewrite IHr, IHs.
Qed.

Lemma requires_at_deriv c r :
  c <> "@"%char -> requires_at r = true -> requires_at (deriv c r) = true.
Proof.
  intros Hc.
  induction r as [| |c'|p|r IHr s IHs|r IHr s IHs|r IHr|r IHr|r IHr]; simpl; try done.
  - intros Heq%Ascii.eqb_eq. subst c'.
    destruct (Ascii.eqb_spec c "@"); [done|reflexivity].
  - intros [H|H]%orb_true_iff.
    + rewrite IHr by done. rewrite (requires_at_not_nullable r H). reflexivity.
    + rewrite H, orb_true_r. destruct (nullable r); [by apply IHs|done].
  - intros [H1 H2]%andb_true_iff. by rewrite IHr, IHs.
  - intros H. by rewrite IHr.
Qed.

Lemma requires_at_no_match s : forall r,
  requires_at r = true ->
  (forall c, c ∈ list_ascii_of_string s -> c <> "@"%char) ->
  re_match r s = false.
Proof.
  induction s as [|c s IH]; intros r Hr Hs; simpl.
  - by rewrite requires_at_not_nullable.
  - rewrite requires_at_not_nullable by done. simpl.
    apply IH.
    + apply requires_at_deriv; [|done]. apply Hs. simpl. left.
    + intros c' Hc'. apply Hs. simpl. by right.
Qed.

(** X21.  An address without an at sign does not have the shape of an
    email: [_EMAIL_PATTERN.match] rejects it. *)
Lemma email_needs_at_sign ua s :
  (forall c, c ∈ list_ascii_of_string s -> c <> "@"%char) ->
  re_match (_EMAIL_PATTERN ua) s = false.
Proof. apply requires_at_no_match. reflexivity. Qed.

(** C6.  When the caller supplies an email address that does not match
    [_EMAIL_PATTERN], [create_permission] fails with [InvalidArgumentValue]
    and nothing is sent; when the address matches, every request body sent
    carries exactly that address and no domain, and a request is indeed
    built once the other arguments are valid. *)
Theorem create_permission_checks_email env ua self file_id role type (kwargs : dict)
    address w :
  kwargs !! "emailAddress" = Some (VStr address) ->
  (re_match (_EMAIL_PATTERN ua) address = false ->
   exists msg, Drive.create_permission env ua self file_id role type kwargs w
               = (Raise (InvalidArgumentValue msg), w))
  /\ (re_match (_EMAIL_PATTERN ua) address = true ->
      (forall q,
          Executed q ∈ sent w (snd (Drive.create_permission env ua self file_id role type
                                      kwargs w)) ->
          exists b, body q = Some b
            /\ b !! "emailAddress" = Some (VStr address) /\ b !! "domain" = None)
      /\ (role ∈ PERMISSION_ROLES -> type ∈ PERMISSION_TYPES ->
          kwargs !! "domain" = None ->
          kwargs !! "fileId" = None -> kwargs !! "body" = None ->
          exists params b,
            Drive.create_permission env ua self file_id role type kwargs w
            = Drive._execute_request env self (Request permissions_create params (Some b)) w
            /\ b !! "emailAddress" = Some (VStr address) /\ b !! "domain" = None)).
Proof.
  intros Haddr. split; [|intros Hgood; split].
  - intros Hbad.
    destruct (create_permission_cases env ua self file_id role type kwargs w)
      as [(msg & Hrun & _)|[(msg & _ & _ & Hwf & _)|(params & b & _ & _ & _ & _ & Hwf & _)]].
    + by exists msg.
    + rewrite (Hwf address Haddr) in Hbad. discriminate.
    + rewrite (Hwf address Haddr) in Hbad. discriminate.
  - intros q Hin.
    apply create_permission_sent in Hin as (b & Hb & He & Hd & Hnot & _).
    exists b. split; [done|]. split; [by rewrite He|].
    rewrite Hd. destruct (kwargs !! "domain") eqn:Hdm; [|done].
    destruct Hnot. by rewrite Haddr.
  - intros Hrole Htype Hdm Hf Hb.
    assert (Hr : existsb (String.eqb role) PERMISSION_ROLES = true).
    { apply existsb_exists. exists role. split; [by apply list_elem_of_In|apply String.eqb_refl]. }
    assert (Ht : existsb (String.eqb type) PERMISSION_TYPES = true).
    { apply existsb_exists. exists type. split; [by apply list_elem_of_In|apply String.eqb_refl]. }
    destruct (create_permission_cases env ua self file_id role type kwargs w)
      as [(msg & _ & [[_ [? ?]]|[?|[?|(text & ? & ?)]]])
         |[(msg & _ & _ & _ & [(v & ? & Hv)|[[? ?]|[? ?]]])
          |(params & b & Hrun & Hbe & Hbd & _)]]; try congruence.
    exists params, b. split; [done|]. by rewrite Hbe, Hbd.
Qed.

Lemma create_permission_checks_email_witness :
  ({[ "emailAddress" := VStr "someone.example.org" ]} : dict) !! "emailAddress"
  = Some (VStr "someone.example.org")
  /\ (exists msg,
        Drive.create_permission accepting ascii_only fresh "file" "writer" "user"
          {[ "emailAddress" := VStr "someone.example.org" ]} w0
        = (Raise (InvalidArgumentValue msg), w0))
  /\ (exists params b,
        Drive.create_permission accepting ascii_only fresh "file" "writer" "user"
          {[ "emailAddress" := VStr "someone@example.org" ]} w0
        = Drive._execute_request accepting fresh (Request permissions_create params (Some b)) w0
        /\ b !! "emailAddress" = Some (VStr "someone@example.org") /\ b !! "domain" = None).
Proof.
  assert (Hbad : ({[ "emailAddress" := VStr "someone.example.org" ]} : dict) !! "emailAddress"
                 = Some (VStr "someone.example.org")) by reflexivity.
  assert (Hgood : ({[ "emailAddress" := VStr "someone@example.org" ]} : dict) !! "emailAddress"
                  = Some (VStr "someone@example.org")) by reflexivity.
  split; [exact Hbad|]. split.
  - apply (proj1 (create_permission_checks_email accepting ascii_only fresh "file" "writer"
                    "user" _ _ w0 Hbad)).
    reflexivity.
  - apply (proj2 (create_permission_checks_email accepting ascii_only fresh "file" "writer"
                    "user" _ _ w0 Hgood));
      try reflexivity; vm_compute; repeat constructor.
Defined.

(** ** Deleting permissions *)

(** C7, as the code has it.  When the attempts of [delete_permission] end
    on a provider failure that is not timeout-classified, an [HttpError]
    whose text contains "The owner of a file cannot be removed." becomes
    [CannotRemoveOwnerError], and any other failure propagates unchanged.
    A provider that answers every attempt with a timeout-classified failure
    makes the operation fail with [RequestError] instead. *)
Theorem delete_permission_translates env self file_id permission_id (kwargs : dict) w :
  0 < retries self ->
  kwargs !! "fileId" = None ->
  kwargs !! "permissionId" = None ->
  let request := delete_permission_request self file_id permission_id kwargs in
  let run := Drive.delete_permission env self file_id permission_id kwargs w in
  (forall k e,
      Z.of_nat k < retries self ->
      (forall j, (j < k)%nat -> exists e',
          attempt env request j w = Raises e' /\ timeout_classified e' = true) ->
      attempt env request k w = Raises e ->
      timeout_classified e = false ->
      let w' := attempts env request (S k) w in
      (is_HttpError e = true -> re_search Drive.owner_pattern (str e) = true ->
       run = (Raise (CannotRemoveOwnerError "The owner of a file cannot be removed!"),
              log (Exception (str e)) w'))
      /\ (is_HttpError e = true -> re_search Drive.owner_pattern (str e) = false ->
          run = (Raise (Provider e), log (Exception (str e)) w'))
      /\ (is_HttpError e = false -> run = (Raise (Provider e), w')))
  /\ ((forall j, exists e,
          attempt env request j w = Raises e /\ timeout_classified e = true) ->
      exists e,
        attempt env request (Z.to_nat (retries self) - 1) w = Raises e
        /\ run = (Raise (RequestError ("Timeout : " +:+ repr e)),
                  attempts env request (Z.to_nat (retries self)) w)).
Proof.
  intros Hpos Hf Hp request run.
  assert (Hcall : call permissions_delete
            [("fileId", VStr file_id); ("permissionId", VStr permission_id)] None
            (Drive.with_team_drive_support self kwargs) w = (Ok request, w)).
  { destruct (call_cases permissions_delete
                [("fileId", VStr file_id); ("permissionId", VStr permission_id)] None
                (Drive.with_team_drive_support self kwargs) w)
      as [(key & Hin & Hsome & _)|[_ Hcall]]; [|exact Hcall].
    rewrite team_drive_support_other in Hsome.
    - simpl in Hin.
      apply elem_of_cons in Hin as [->|Hin]; [rewrite Hf in Hsome; by destruct Hsome|].
      apply list_elem_of_singleton in Hin as ->. rewrite Hp in Hsome. by destruct Hsome.
    - intros ->. simpl in Hin.
      apply elem_of_cons in Hin as [?|Hin]; [done|].
      by apply list_elem_of_singleton in Hin. }
  assert (Hrun : forall x w',
    Drive._execute_request env self request w = (Raise x, w') ->
    run = match x with
          | Provider e =>
              if is_HttpError e then
                if re_search Drive.owner_pattern (str e)
                then (Raise (CannotRemoveOwnerError "The owner of a file cannot be removed!"),
                      log (Exception (str e)) w')
                else (Raise (Provider e), log (Exception (str e)) w')
              else (Raise (Provider e), w')
          | _ => (Raise x, w')
          end).
  { intros x w' Hex. subst run. unfold Drive.delete_permission, try_except_HttpError.
    unfold bind at 1. rewrite Hcall. unfold bind at 1. rewrite Hex.
    destruct x as [e| | | | | | |]; try reflexivity.
    destruct (is_HttpError e); [|reflexivity].
    unfold bind, emit. by destruct (re_search _ _). }
  split.
  - intros k e Hk Hto He Hc w'.
    pose proof (execute_request_settled env self request w k Hk Hto) as Hex.
    rewrite He in Hex. specialize (Hex Hc). apply Hrun in Hex. fold w' in Hex.
    repeat split; intros; rewrite Hex; repeat match goal with H : _ = _ |- _ => rewrite H end;
      reflexivity.
  - intros Hall.
    destruct (execute_request_exhausted env self request w Hpos) as (e & He & Hex).
    { intros j _. apply Hall. }
    exists e. split; [done|]. by apply Hrun in Hex.
Qed.

Lemma delete_permission_hides_timeout :
  re_search Drive.owner_pattern (str gateway_timeout) = false
  /\ (forall j, attempt (failing gateway_timeout)
                  (delete_permission_request fresh "file" "permission" ∅) j w0
                = Raises gateway_timeout)
  /\ fst (Drive.delete_permission (failing gateway_timeout) fresh "file" "permission" ∅ w0)
     <> Raise (Provider gateway_timeout).
Proof.
  split; [reflexivity|]. split; [reflexivity|]. vm_compute. discriminate.
Qed.

Lemma delete_permission_translates_witness :
  0 < retries fresh
  /\ (∅ : dict) !! "fileId" = None
  /\ (∅ : dict) !! "permissionId" = None
  /\ fst (Drive.delete_permission (failing owner_kept) fresh "file" "permission" ∅ w0)
     = Raise (CannotRemoveOwnerError "The owner of a file cannot be removed!")
  /\ fst (Drive.delete_permission (failing forbidden) fresh "file" "permission" ∅ w0)
     = Raise (Provider forbidden)
  /\ fst (Drive.delete_permission (failing gateway_timeout) fresh "file" "permission" ∅ w0)
     = Raise (RequestError "Timeout : <HttpError 504 'The request timed out'>").
Proof.
  assert (Hf : (∅ : dict) !! "fileId" = None) by reflexivity.
  assert (Hp : (∅ : dict) !! "permissionId" = None) by reflexivity.
  split; [reflexivity|]. split; [exact Hf|]. split; [exact Hp|].
  split; [|split].
  - destruct (proj1 (delete_permission_translates (failing owner_kept) fresh "file" "permission"
                       ∅ w0 eq_refl Hf Hp) 0%nat owner_kept)
      as (Hown & _ & _); [reflexivity | intros j Hj; lia | reflexivity | reflexivity |].
    rewrite Hown; reflexivity.
  - destruct (proj1 (delete_permission_translates (failing forbidden) fresh "file" "permission"
                       ∅ w0 eq_refl Hf Hp) 0%nat forbidden)
      as (_ & Hother & _); [reflexivity | intros j Hj; lia | reflexivity | reflexivity |].
    rewrite Hother; reflexivity.
  - destruct (proj2 (delete_permission_translates (failing gateway_timeout) fresh "file"
                       "permission" ∅ w0 eq_refl Hf Hp))
      as (e & He & Hrun).
    + intros j. exists gateway_timeout. split; reflexivity.
    + injection He as <-. rewrite Hrun. reflexivity.
Defined.

(** ** Pagination *)

Lemma answers_next env w r rest request :
  answers env w (r :: rest) ->
  answers env (World (history w ++ [Executed request]) (logs w) (handles w) (index_of w)) rest.
Proof.
  intros Hans w' q k rk Hlen Hk. apply (Hans w' q (S k) rk); [|done].
  cbn [history] in Hlen. rewrite length_app in Hlen. simpl in Hlen. lia.
Qed.

Lemma answers_first env w r rest q :
  answers env w (r :: rest) -> execute env w q = Returns r.
Proof. intros Hans. apply (Hans w q 0%nat r); [lia|done]. Qed.

Lemma last_cons_default {A} (l : list A) : forall a d, List.last (a :: l) d = List.last l a.
Proof.
  induction l as [|b l IH]; intros a d; [done|].
  change (List.last (a :: b :: l) d) with (List.last (b :: l) d).
  change (List.last (b :: l) a) with (List.last (b :: l) a).
  by rewrite (IH b d), (IH b a).
Qed.

Lemma followed_token (kwargs r r' : dict) rest token :
  r !! "nextPageToken" = Some token ->
  followed kwargs (r :: r' :: rest) = followed (<[ "pageToken" := token ]> kwargs) (r' :: rest)
  /\ next_pages kwargs (r :: r' :: rest)
     = Request files_list (<[ "pageToken" := token ]> kwargs) None
       :: next_pages (<[ "pageToken" := token ]> kwargs) (r' :: rest).
Proof. intros H. cbn [followed next_pages]. by rewrite H. Qed.

(** The loop of [list] follows the continuation tokens to the last page. *)
Lemma list_while_follows env self : forall rest r (kwargs : dict) result w fuel,
  0 < retries self ->
  paginated "files" (r :: rest) ->
  answers env w rest ->
  (length rest <= fuel)%nat ->
  Drive.list_while env fuel self kwargs (Some r) result w
  = (Ok (followed kwargs (r :: rest), Some (List.last rest r),
         result ++ concat (page "files" <$> rest)),
     World (history w ++ (Executed <$> next_pages kwargs (r :: rest)))
           (logs w) (handles w) (index_of w)).
Proof.
  induction rest as [|r' rest IH]; intros r kwargs result w fuel Hpos Hpag Hans Hfuel.
  - destruct Hpag as [_ Hnone].
    destruct fuel; cbn [Drive.list_while]; unfold bind, contains, ret;
      rewrite bool_decide_eq_false_2 by (rewrite Hnone; by intros [? ?]);
      cbn [followed next_pages fmap list_fmap concat List.last]; rewrite !app_nil_r; by destruct w.
  - destruct Hpag as [_ [[token Htoken] Hpag]].
    destruct fuel as [|fuel]; [simpl in Hfuel; lia|].
    cbn [Drive.list_while]. unfold bind at 1, contains at 1, ret at 1.
    rewrite bool_decide_eq_true_2 by (by rewrite Htoken).
    unfold bind at 1, subscript at 1. rewrite Htoken. cbn [ret].
    unfold bind at 1.
    rewrite (execute_request_answered env self _ w r' Hpos)
      by (by eapply answers_first).
    destruct (Hpag) as [[l Hl] _].
    unfold bind at 1, subscript at 1. rewrite Hl. cbn [ret].
    unfold bind at 1, extend at 1. cbn [ret].
    rewrite (IH r' _ _ _ fuel Hpos Hpag); [| by eapply answers_next | simpl in Hfuel; lia].
    destruct (followed_token kwargs r r' rest token Htoken) as [-> ->].
    rewrite last_cons_default.
    cbn [history logs handles index_of]. rewrite fmap_cons, fmap_cons.
    cbn [concat]. unfold page at 2. rewrite Hl. rewrite <- !app_assoc. reflexivity.
Qed.

Lemma followed_other key : key <> "pageToken" ->
  forall responses (kwargs : dict), followed kwargs responses !! key = kwargs !! key.
Proof.
  intros Hne. induction responses as [|r rest IH]; intros kwargs; [done|].
  destruct rest as [|r' rest]; [done|].
  destruct (r !! "nextPageToken") as [token|] eqn:Htoken.
  - rewrite (proj1 (followed_token kwargs r r' rest token Htoken)).
    rewrite IH. by rewrite lookup_insert_ne.
  - cbn [followed]. by rewrite Htoken.
Qed.

(** [list] on a paginated sequence of responses: the pages are collected in
    order with one request each; what follows depends on whether the last
    response reports an incomplete search, and then on the [corpora] keyword. *)
Lemma list_run env self r rest (kwargs : dict) w fuel :
  0 < retries self ->
  paginated "files" (r :: rest) ->
  answers env w (r :: rest) ->
  (length rest <= fuel)%nat ->
  let final :=
    World (history w
           ++ (Executed <$> Request files_list kwargs None :: next_pages kwargs (r :: rest)))
          (logs w) (handles w) (index_of w) in
  let result := concat (page "files" <$> r :: rest) in
  Drive.list env fuel self kwargs w
  = if incomplete (List.last rest r) then
      match kwargs !! "corpora" with
      | Some corpora => (Ok result, log (Warning Drive.list_warning [corpora]) final)
      | None => (Raise (KeyError "corpora"), final)
      end
    else (Ok result, final).
Proof.
  intros Hpos Hpag Hans Hfuel final result.
  unfold Drive.list. unfold bind at 1.
  rewrite (execute_request_answered env self _ w r Hpos) by (by eapply answers_first).
  destruct (Hpag) as [[l Hl] _].
  unfold bind at 1, subscript at 1. rewrite Hl. cbn [ret].
  unfold bind at 1, extend at 1. cbn [ret app].
  unfold bind at 1.
  rewrite (list_while_follows env self rest r kwargs l _ fuel Hpos Hpag);
    [| by eapply answers_next | done].
  cbn [history logs handles index_of].
  assert (Hresult : l ++ concat (page "files" <$> rest) = result).
  { subst result. rewrite fmap_cons. cbn [concat]. unfold page at 2. by rewrite Hl. }
  rewrite Hresult.
  assert (Hfinal : World ((history w ++ [Executed (Request files_list kwargs None)])
                          ++ (Executed <$> next_pages kwargs (r :: rest)))
                         (logs w) (handles w) (index_of w) = final).
  { subst final. rewrite fmap_cons. by rewrite <- app_assoc. }
  rewrite Hfinal.
  unfold incomplete. unfold bind at 1. unfold bind at 1, contains at 1. cbn [ret].
  destruct (List.last rest r !! "incompleteSearch") as [flag|] eqn:Hflag.
  - rewrite bool_decide_eq_true_2 by done.
    unfold bind at 1, subscript at 1. rewrite Hflag. cbn [ret].
    destruct (truthy flag); [|reflexivity].
    unfold bind at 1. unfold bind at 1, kwarg at 1.
    rewrite (followed_other "corpora") by done.
    destruct (kwargs !! "corpora"); reflexivity.
  - rewrite bool_decide_eq_false_2 by (by intros [? ?]). reflexivity.
Qed.

Lemma next_pages_length key : forall responses (kwargs : dict),
  paginated key responses ->
  length (next_pages kwargs responses) = pred (length responses).
Proof.
  induction responses as [|r rest IH]; intros kwargs Hpag; [done|].
  destruct rest as [|r' rest]; [done|].
  destruct Hpag as [_ [[token Htoken] Hpag]].
  rewrite (proj2 (followed_token kwargs r r' rest token Htoken)).
  cbn [length]. by rewrite (IH _ Hpag).
Qed.


Lemma permission_kwargs_other self (kwargs : dict) key :
  key <> "supportsTeamDrives" -> key <> "fields" ->
  permission_kwargs self kwargs !! key = kwargs !! key.
Proof.
  intros H1 H2. unfold permission_kwargs.
  destruct (negb _); [rewrite lookup_insert_ne by done|]; by apply team_drive_support_other.
Qed.

Lemma next_permission_pages_token file_id (kwargs r r' : dict) rest token :
  r !! "nextPageToken" = Some token ->
  next_permission_pages file_id kwargs (r :: r' :: rest)
  = Request permissions_list
      (list_to_map [("fileId", VStr file_id); ("pageToken", token)] ∪ kwargs) None
    :: next_permission_pages file_id kwargs (r' :: rest).
Proof. intros H. cbn [next_permission_pages]. by rewrite H. Qed.

(** The loop of [list_permissions] follows the continuation tokens. *)
Lemma list_permissions_while_follows env self file_id (kwargs : dict) :
  kwargs !! "fileId" = None ->
  kwargs !! "pageToken" = None ->
  forall rest r permissions w fuel,
  0 < retries self ->
  paginated "permissions" (r :: rest) ->
  answers env w rest ->
  (length rest <= fuel)%nat ->
  Drive.list_permissions_while env fuel self file_id kwargs (Some r) permissions w
  = (Ok (permissions ++ concat (page "permissions" <$> rest)),
     World (history w ++ (Executed <$> next_permission_pages file_id kwargs (r :: rest)))
           (logs w) (handles w) (index_of w)).
Proof.
  intros Hfile Htok.
  induction rest as [|r' rest IH]; intros r permissions w fuel Hpos Hpag Hans Hfuel.
  - destruct Hpag as [_ Hnone].
    destruct fuel; cbn [Drive.list_permissions_while]; unfold bind, contains, ret;
      rewrite bool_decide_eq_false_2 by (rewrite Hnone; by intros [? ?]);
      cbn [next_permission_pages fmap list_fmap concat]; rewrite !app_nil_r; by destruct w.
  - destruct Hpag as [_ [[token Htoken] Hpag]].
    destruct fuel as [|fuel]; [simpl in Hfuel; lia|].
    cbn [Drive.list_permissions_while]. unfold bind at 1, contains at 1, ret at 1.
    rewrite bool_decide_eq_true_2 by (by rewrite Htoken).
    unfold bind at 1, subscript at 1. rewrite Htoken. cbn [ret].
    unfold bind at 1. rewrite call_built.
    2:{ intros k Hk. simpl in Hk. apply elem_of_cons in Hk as [->|Hk]; [done|].
        by apply list_elem_of_singleton in Hk as ->. }
    unfold bind at 1.
    rewrite (execute_request_answered env self _ w r' Hpos)
      by (by eapply answers_first).
    destruct (Hpag) as [[l Hl] _].
    unfold bind at 1, subscript at 1. rewrite Hl. cbn [ret].
    unfold bind at 1, extend at 1. cbn [ret].
    rewrite (IH r' _ _ fuel Hpos Hpag); [| by eapply answers_next | simpl in Hfuel; lia].
    rewrite (next_permission_pages_token file_id kwargs r r' rest token Htoken).
    cbn [history logs handles index_of]. rewrite fmap_cons, fmap_cons.
    cbn [concat]. unfold page at 2. rewrite Hl. rewrite <- !app_assoc. reflexivity.
Qed.

(** [list_permissions] on a paginated sequence of responses. *)
Lemma list_permissions_run env self file_id r rest (kwargs : dict) w fuel :
  0 < retries self ->
  kwargs !! "fileId" = None ->
  kwargs !! "pageToken" = None ->
  paginated "permissions" (r :: rest) ->
  answers env w (r :: rest) ->
  (length rest <= fuel)%nat ->
  Drive.list_permissions env fuel self file_id kwargs w
  = (Ok (concat (page "permissions" <$> r :: rest)),
     World (history w
            ++ (Executed <$>
                  Request permissions_list
                    (list_to_map [("fileId", VStr file_id)] ∪ permission_kwargs self kwargs) None
                  :: next_permission_pages file_id (permission_kwargs self kwargs) (r :: rest)))
           (logs w) (handles w) (index_of w)).
Proof.
  intros Hpos Hfile Htok Hpag Hans Hfuel.
  unfold Drive.list_permissions. fold (permission_kwargs self kwargs).
  assert (Hfile' : permission_kwargs self kwargs !! "fileId" = None)
    by (by rewrite permission_kwargs_other).
  assert (Htok' : permission_kwargs self kwargs !! "pageToken" = None)
    by (by rewrite permission_kwargs_other).
  unfold bind at 1. rewrite call_built.
  2:{ intros k Hk. simpl in Hk. by apply list_elem_of_singleton in Hk as ->. }
  unfold bind at 1.
  rewrite (execute_request_answered env self _ w r Hpos) by (by eapply answers_first).
  destruct (Hpag) as [[l Hl] _].
  unfold bind at 1, subscript at 1. rewrite Hl. cbn [ret].
  unfold bind at 1, extend at 1. cbn [ret app].
  rewrite (list_permissions_while_follows env self file_id _ Hfile' Htok' rest r l _ fuel
             Hpos Hpag); [| by eapply answers_next | done].
  cbn [history logs handles index_of]. rewrite !fmap_cons. cbn [concat].
  unfold page at 2. rewrite Hl. by rewrite <- app_assoc.
Qed.

Lemma two_pages_answers : answers two_pages w0 [first_page; last_page].
Proof.
  intros w' q k r Hlen Hk. cbn [execute two_pages].
  destruct k as [|[|k]]; simpl in Hk; try discriminate; injection Hk as <-.
  - destruct (history w'); [done|discriminate].
  - destruct (history w'); [discriminate|done].
Qed.

Lemma one_page_answers : answers one_page w0 [last_page].
Proof.
  intros w' q k r Hlen Hk. cbn [execute one_page].
  destruct k as [|k]; simpl in Hk; try discriminate. by injection Hk as <-.
Qed.

Lemma two_pages_paginated : paginated "files" [first_page; last_page].
Proof. repeat split; try by eexists. Qed.

(** C2 on [list].  The two pages are fetched with one request each, and the
    call then stops with [KeyError] on the [corpora] keyword instead of
    returning the items of both pages: the last page reports an incomplete
    search and the caller gave no [corpora]. *)
Theorem list_pages_then_key_error :
  paginated "files" [first_page; last_page]
  /\ answers two_pages w0 [first_page; last_page]
  /\ Drive.list two_pages 1 fresh by_name w0
     = (Raise (KeyError "corpora"),
        World [Executed (Request files_list by_name None);
               Executed (Request files_list (<[ "pageToken" := VStr "t1" ]> by_name) None)]
              [] [] (fun _ => 0))
  /\ concat (page "files" <$> [first_page; last_page]) = [VStr "a"; VStr "b"].
Proof.
  split; [apply two_pages_paginated|]. split; [apply two_pages_answers|].
  split; [|reflexivity].
  rewrite (list_run two_pages fresh first_page [last_page] by_name w0 1);
    [reflexivity | reflexivity | apply two_pages_paginated | apply two_pages_answers | simpl; lia].
Qed.

(** C4.  When the last response reports an incomplete search, [list] warns
    and returns the collected items if the caller supplied the [corpora]
    keyword, which the warning names; without that keyword the call raises
    [KeyError] in place of the warning and returns nothing. *)
Theorem list_incomplete_search env self r rest (kwargs : dict) w fuel :
  0 < retries self ->
  paginated "files" (r :: rest) ->
  answers env w (r :: rest) ->
  (length rest <= fuel)%nat ->
  incomplete (List.last rest r) = true ->
  (forall corpora, kwargs !! "corpora" = Some corpora ->
      fst (Drive.list env fuel self kwargs w) = Ok (concat (page "files" <$> r :: rest))
      /\ logs (snd (Drive.list env fuel self kwargs w))
         = logs w ++ [Warning Drive.list_warning [corpora]])
  /\ (kwargs !! "corpora" = None ->
      fst (Drive.list env fuel self kwargs w) = Raise (KeyError "corpora")
      /\ logs (snd (Drive.list env fuel self kwargs w)) = logs w).
Proof.
  intros Hpos Hpag Hans Hfuel Hinc.
  rewrite (list_run env self r rest kwargs w fuel Hpos Hpag Hans Hfuel). rewrite Hinc.
  split.
  - intros corpora ->. done.
  - intros ->. done.
Qed.

Lemma list_incomplete_search_witness :
  0 < retries fresh
  /\ incomplete last_page = true
  /\ by_name !! "corpora" = None
  /\ fst (Drive.list one_page 0 fresh by_name w0) = Raise (KeyError "corpora")
  /\ fst (Drive.list one_page 0 fresh (<[ "corpora" := VStr "allDrives" ]> by_name) w0)
     = Ok [VStr "b"].
Proof.
  assert (Hpag : paginated "files" [last_page]) by (split; [by eexists|done]).
  assert (Hnone : by_name !! "corpora" = None) by reflexivity.
  assert (Hsome : <[ "corpora" := VStr "allDrives" ]> by_name !! "corpora"
                  = Some (VStr "allDrives")) by reflexivity.
  split; [reflexivity|]. split; [reflexivity|]. split; [exact Hnone|]. split.
  - apply (proj2 (list_incomplete_search one_page fresh last_page [] by_name w0 0
                    eq_refl Hpag one_page_answers (le_n 0) eq_refl) Hnone).
  - apply (proj1 (list_incomplete_search one_page fresh last_page []
                    (<[ "corpora" := VStr "allDrives" ]> by_name) w0 0
                    eq_refl Hpag one_page_answers (le_n 0) eq_refl) _ Hsome).
Defined.

(** [spreadsheet_metadata] on the personal drive calls [list] without the
    [corpora] keyword: an incomplete search then ends in [KeyError]. *)
Example spreadsheet_metadata_incomplete :
  fst (Drive.spreadsheet_metadata one_page 0 fresh "" w0) = Raise (KeyError "corpora").
Proof. reflexivity. Qed.

(** On a team drive it supplies the keyword, warns and returns the items. *)
Example spreadsheet_metadata_team_drive :
  Drive.spreadsheet_metadata one_page 0 (Drive.enable_team_drive fresh (Some "drive")) "" w0
  = (Ok [VStr "b"],
     World (history (snd (Drive.spreadsheet_metadata one_page 0
                            (Drive.enable_team_drive fresh (Some "drive")) "" w0)))
           [Warning Drive.list_warning [VStr "teamDrive"]] [] (fun _ => 0)).
Proof. reflexivity. Qed.

(** [list_permissions] called with a [pageToken] of the caller's: the second
    page cannot be requested, the keyword is given twice. *)
Example list_permissions_resumed :
  fst (Drive.list_permissions two_permission_pages 1 fresh "file"
         {[ "pageToken" := VStr "t0" ]} w0)
  = Raise (TypeError "got multiple values for keyword argument 'pageToken'").
Proof. reflexivity. Qed.

Example list_permissions_two_pages :
  fst (Drive.list_permissions two_permission_pages 1 fresh "file" ∅ w0)
  = Ok [VStr "p"; VStr "q"].
Proof. reflexivity. Qed.

(** ** Downloads *)

Lemma more_written_0 h : more_written 0 h = h.
Proof. by destruct h. Qed.

Lemma more_written_S k h : more_written k (more_written 1 h) = more_written (S k) h.
Proof. unfold more_written. simpl. f_equal. lia. Qed.

(** The download loop asks for every chunk the provider has, writes the
    delivered ones to the handle and reports on each. *)
Lemma download_chunks_run request fh last : forall chunks n w,
  Drive.download_chunks request fh n chunks last w
  = (match last with Completes _ => Ok tt | Breaks e => Raise (Provider e) end,
     World (history w ++ map (Chunk request) (seq n (S (length chunks))))
           (logs w ++ map progress (delivered (Download chunks last)))
           (alter (more_written (length (delivered (Download chunks last)))) fh (handles w))
           (index_of w)).
Proof.
  induction chunks as [|st rest IH]; intros n w.
  - unfold delivered. cbn [Drive.download_chunks partial_chunks ending length seq map app].
    destruct last as [st|e]; unfold bind, record, write_chunk, emit, log, raise; simpl.
    + reflexivity.
    + rewrite app_nil_r. rewrite list_alter_id by apply more_written_0. by destruct w.
  - cbn [Drive.download_chunks]. unfold bind at 1, record at 1.
    unfold bind at 1, write_chunk at 1. unfold bind at 1, emit at 1, log.
    rewrite IH. f_equal. cbn [history logs handles index_of].
    unfold delivered. cbn [partial_chunks ending length seq map app].
    rewrite <- !app_assoc. f_equal.
    rewrite list_alter_alter_eq. apply list_alter_ext; [|done].
    intros h _. apply more_written_S.
Qed.

Lemma downloads_later_chunks r n : forall i,
  downloads (map (Chunk r) (seq (S i) n)) = [].
Proof. induction n as [|n IH]; intros i; [done|]. simpl. apply IH. Qed.

Lemma downloads_one r n : downloads (map (Chunk r) (seq 0 (S n))) = [r].
Proof. simpl. f_equal. apply downloads_later_chunks. Qed.

Lemma downloads_app h1 h2 : downloads (h1 ++ h2) = downloads h1 ++ downloads h2.
Proof. apply omap_app. Qed.

Lemma split_format_cases values fmt :
  (exists mime ext, forall w, Drive.split_format values fmt w = (Ok (mime, ext), w))
  \/ (exists e, forall w, Drive.split_format values fmt w = (Raise e, w)).
Proof.
  unfold Drive.split_format.
  destruct (split ":" _) as [|mime [|ext [|more parts]]].
  - right. by eexists.
  - right. by eexists.
  - left. by eexists _, _.
  - right. by eexists.
Qed.

(** ** Exporting one worksheet *)

(** The export of one worksheet, step by step. *)
Lemma export_worksheet_run env values depth self ws fmt path filename w mime ext :
  (forall w, Drive.split_format values fmt w = (Ok (mime, ext), w)) ->
  let file_name :=
    match filename with
    | None => str_of_int (ws_id ws) +:+ ext
    | Some filename => filename +:+ ext
    end in
  let request := Drive._export_request (ws_spreadsheet_id ws) mime in
  let zeroed := World (history w) (logs w) (handles w) (moved ws 0 w) in
  let started :=
    World (history w) (logs w) (handles w ++ [FileHandle (path +:+ file_name) 0 false])
          (moved ws 0 w) in
  let d := serve env started request in
  let chunks := map (Chunk request) (seq 0 (S (length (partial_chunks d)))) in
  let file := FileHandle (path +:+ file_name) (length (delivered d)) false in
  Drive.export_rec env values depth self (AWorksheet ws) fmt path filename w
  = if unwritable env (path +:+ file_name)
    then (Raise (OSError (path +:+ file_name)), zeroed)
    else match ending d with
         | Completes _ =>
             (Ok tt,
              World (history w ++ chunks)
                    ((logs w ++ map progress (delivered d))
                     ++ [Info "Download finished. File saved in %s."
                           [VStr (path +:+ file_name +:+ ext)]])
                    (handles w ++ [file])
                    (moved ws (index_of w (ws_object ws)) zeroed))
         | Breaks e =>
             (Raise (Provider e),
              World (history w ++ chunks) (logs w ++ map progress (delivered d))
                    (handles w ++ [file]) (moved ws 0 w))
         end.
Proof.
  intros Hsplit file_name request zeroed started d chunks file.
  assert (Hbody : forall depth', Drive.export_rec env values depth' self (AWorksheet ws) fmt path filename w
    = Drive.export_rec env values 0 self (AWorksheet ws) fmt path filename w).
  { by intros [|depth']. }
  rewrite Hbody. cbn [Drive.export_rec].
  unfold bind at 1. rewrite Hsplit.
  unfold bind at 1. unfold bind at 1. unfold get_index at 1.
  unfold bind at 1, set_index at 1. cbn [history logs handles index_of ret].
  fold (moved ws 0 w). fold zeroed. cbn [Drive.str_id]. fold file_name.
  unfold bind at 1, open_file at 1. cbn [handles history logs index_of zeroed].
  destruct (unwritable env (path +:+ file_name)); [reflexivity|].
  fold started. unfold bind at 1. fold request. fold d.
  unfold bind at 1. rewrite download_chunks_run.
  replace (Download (partial_chunks d) (ending d)) with d by (by destruct d).
  subst started. cbn [history logs handles index_of].
  replace (length (handles w)) with (length (handles w) + 0)%nat by lia.
  rewrite alter_app_r. cbn [alter list_alter].
  assert (Hfile : more_written (length (delivered d)) (FileHandle (path +:+ file_name) 0 false)
                  = file).
  { unfold more_written, file. cbn [name written closed]. by rewrite Nat.add_0_r. }
  rewrite Hfile. fold chunks.
  destruct (ending d); reflexivity.
Qed.

(** C8.  When [export] of a single worksheet returns, the position of the
    worksheet (and of every other one) is what it was before the call, one
    download has taken place and one file has been opened, named by the base
    file name followed by the extension of the format. *)
Theorem export_worksheet_restores_index env values self ws fmt path filename w w' :
  Drive.export env values self (AWorksheet ws) fmt path filename w = (Ok tt, w') ->
  (forall o, index_of w' o = index_of w o)
  /\ exists mime ext written,
       (forall w, Drive.split_format values fmt w = (Ok (mime, ext), w))
       /\ downloads (sent w w') = [Drive._export_request (ws_spreadsheet_id ws) mime]
       /\ handles w'
          = handles w
            ++ [FileHandle
                  (path +:+ match filename with
                            | None => str_of_int (ws_id ws)
                            | Some filename => filename
                            end +:+ ext)
                  written false].
Proof.
  unfold Drive.export.
  destruct (split_format_cases values fmt) as [(mime & ext & Hsplit)|[e Hsplit]].
  - rewrite (export_worksheet_run env values 1 self ws fmt path filename w mime ext Hsplit).
    cbv zeta.
    assert (Hname : match filename with
                    | Some filename => filename +:+ ext
                    | None => str_of_int (ws_id ws) +:+ ext
                    end
                    = match filename with
                      | None => str_of_int (ws_id ws)
                      | Some filename => filename
                      end +:+ ext) by (by destruct filename).
    rewrite Hname.
    destruct (unwritable env _); [discriminate|].
    destruct (ending _) as [st|e]; [|discriminate].
    intros Heq. apply (f_equal snd) in Heq. cbn [snd] in Heq. subst w'.
    cbn [index_of handles history]. split.
    + intros o. unfold moved. cbn [index_of].
      destruct (Nat.eqb_spec o (ws_object ws)) as [->|]; done.
    + exists mime, ext. eexists. split; [done|]. split.
      * unfold sent. cbn [history]. rewrite drop_app_length. apply downloads_one.
      * reflexivity.
  - cbn [Drive.export_rec]. unfold bind at 1. rewrite Hsplit. discriminate.
Qed.

Lemma export_worksheet_restores_index_witness :
  Drive.export slow sample_values fresh (AWorksheet second_sheet) (Member CSV) "/tmp/" None w_doc
  = (Ok tt, snd (Drive.export slow sample_values fresh (AWorksheet second_sheet) (Member CSV)
                   "/tmp/" None w_doc))
  /\ index_of (snd (Drive.export slow sample_values fresh (AWorksheet second_sheet)
                      (Member CSV) "/tmp/" None w_doc)) 1%nat = 1
  /\ exists written,
       handles (snd (Drive.export slow sample_values fresh (AWorksheet second_sheet)
                       (Member CSV) "/tmp/" None w_doc))
       = [FileHandle "/tmp/1577.csv" written false].
Proof.
  assert (Hrun : Drive.export slow sample_values fresh (AWorksheet second_sheet) (Member CSV)
                   "/tmp/" None w_doc
                 = (Ok tt, snd (Drive.export slow sample_values fresh (AWorksheet second_sheet)
                                  (Member CSV) "/tmp/" None w_doc))) by reflexivity.
  split; [exact Hrun|].
  destruct (export_worksheet_restores_index _ _ _ _ _ _ _ _ _ Hrun)
    as (Hindex & mime & ext & written & Hsplit & _ & Hhandles).
  split.
  - rewrite Hindex. reflexivity.
  - exists written. rewrite Hhandles. specialize (Hsplit w0). injection Hsplit as <- <-.
    reflexivity.
Defined.

(** When the download breaks, the worksheet is left at the first position. *)
Example export_failure_leaves_first_position :
  index_of w_doc 1%nat = 1
  /\ fst (Drive.export breaking sample_values fresh (AWorksheet second_sheet) PDF
            "" (Some "out") w_doc)
     = Raise (Provider forbidden)
  /\ index_of (snd (Drive.export breaking sample_values fresh (AWorksheet second_sheet) PDF
                      "" (Some "out") w_doc)) 1%nat
     = 0.
Proof. repeat split. Qed.

(** ** Exporting every worksheet *)

(** C3 with the default file name.  On a spreadsheet with several worksheets
    and the CSV or TSV format, [export] called without a file name stops with
    a [TypeError] on the first worksheet: nothing is requested from the
    provider and no file is opened. *)
Theorem export_sheets_without_filename env values self s fmt path w :
  is_CSV_or_TSV fmt = true ->
  (1 < length (worksheets s))%nat ->
  (exists mime ext, forall w, Drive.split_format values fmt w = (Ok (mime, ext), w)) ->
  Drive.export env values self (ASpreadsheet s) fmt path None w
  = (Raise (TypeError "unsupported operand type(s) for +: 'NoneType' and 'str'"), w).
Proof.
  intros Hfmt Hlen (mime & ext & Hsplit).
  unfold Drive.export. cbn [Drive.export_rec].
  unfold bind at 1. rewrite Hsplit. rewrite Hfmt.
  apply Nat.ltb_lt in Hlen. rewrite Hlen. cbn [andb].
  destruct (worksheets s) as [|ws rest]; [discriminate|].
  by destruct w.
Qed.

Lemma export_sheets_without_filename_witness :
  is_CSV_or_TSV (Member CSV) = true
  /\ (1 < length (worksheets doc))%nat
  /\ Drive.export accepting sample_values fresh (ASpreadsheet doc) (Member CSV) "" None w_doc
     = (Raise (TypeError "unsupported operand type(s) for +: 'NoneType' and 'str'"), w_doc).
Proof.
  split; [reflexivity|]. split; [simpl; lia|].
  apply export_sheets_without_filename; [reflexivity|simpl; lia|].
  exists "text/csv", ".csv". reflexivity.
Defined.

(** The loop of [export] over the worksheets of a spreadsheet, when the
    caller gave a file name, every file can be written and every download
    completes. *)
Lemma export_each_worksheet env values depth self fmt path base mime ext :
  (forall w, Drive.split_format values fmt w = (Ok (mime, ext), w)) ->
  (forall name, unwritable env name = false) ->
  (forall w r, exists st, ending (serve env w r) = Completes st) ->
  forall sheets w,
  exists w' events files,
    for_each sheets (fun worksheet =>
      let* index := get_index worksheet in
      let* name := Drive.add_str (Some base) (str_of_int index) in
      Drive.export_rec env values depth self (AWorksheet worksheet) fmt path (Some name)) w
    = (Ok tt, w')
    /\ (forall o, index_of w' o = index_of w o)
    /\ history w' = history w ++ events
    /\ downloads events
       = (fun ws => Drive._export_request (ws_spreadsheet_id ws) mime) <$> sheets
    /\ handles w' = handles w ++ files
    /\ name <$> files
       = (fun ws => path +:+ (base +:+ str_of_int (index_of w (ws_object ws))) +:+ ext)
         <$> sheets
    /\ Forall (fun h => closed h = false) files.
Proof.
  intros Hsplit Hwrite Hdone.
  induction sheets as [|ws rest IH]; intros w.
  - exists w, [], []. cbn [for_each ret]. rewrite !app_nil_r. done.
  - cbn [for_each]. unfold bind at 1. unfold bind at 1, get_index at 1.
    unfold bind at 1, Drive.add_str at 1. cbn [ret].
    rewrite (export_worksheet_run env values depth self ws fmt path _ w mime ext Hsplit).
    cbv zeta. rewrite Hwrite.
    match goal with |- context [ending ?d] => destruct (Hdone _ _ : exists st, ending d = _) as [st Hst]; rewrite Hst end.
    cbv beta iota.
    match goal with |- context [for_each rest _ ?w] => set (w1 := w) end.
    destruct (IH w1) as (w' & events & files & Hrun & Hindex & Hhist & Hdl & Hh & Hnames & Hopen).
    assert (Hw1 : forall o, index_of w1 o = index_of w o).
    { intros o. subst w1. cbn [index_of]. unfold moved. cbn [index_of].
      destruct (Nat.eqb_spec o (ws_object ws)) as [->|]; done. }
    eexists w', _, _. rewrite Hrun. split; [done|]. split; [|split; [|split; [|split; [|split]]]].
    + intros o. by rewrite Hindex, Hw1.
    + rewrite Hhist. subst w1. cbn [history]. by rewrite <- app_assoc.
    + rewrite downloads_app, downloads_one, Hdl. reflexivity.
    + rewrite Hh. subst w1. cbn [handles]. by rewrite <- app_assoc.
    + rewrite fmap_app, Hnames. cbn [fmap list_fmap app name].
      f_equal. apply list_fmap_ext. intros _ ws' _. by rewrite Hw1.
    + apply Forall_app. split; [by apply Forall_singleton|done].
Qed.

(** X23.  With a file name, [export] of a spreadsheet to CSV or TSV makes
    one download per worksheet and opens one file per worksheet, named by
    the file name, the position of the worksheet and the extension; the
    positions are what they were. *)
Lemma export_sheets_named env values self s fmt path base w mime ext :
  is_CSV_or_TSV fmt = true ->
  (1 < length (worksheets s))%nat ->
  (forall w, Drive.split_format values fmt w = (Ok (mime, ext), w)) ->
  (forall name, unwritable env name = false) ->
  (forall w r, exists st, ending (serve env w r) = Completes st) ->
  exists w',
    Drive.export env values self (ASpreadsheet s) fmt path (Some base) w = (Ok tt, w')
    /\ (forall o, index_of w' o = index_of w o)
    /\ downloads (sent w w')
       = (fun ws => Drive._export_request (ws_spreadsheet_id ws) mime) <$> worksheets s
    /\ name <$> opened w w'
       = (fun ws => path +:+ (base +:+ str_of_int (index_of w (ws_object ws))) +:+ ext)
         <$> worksheets s
    /\ take (length (handles w)) (handles w') = handles w.
Proof.
  intros Hfmt Hlen Hsplit Hwrite Hdone. unfold Drive.export. generalize 0%nat. intros depth.
  destruct (export_each_worksheet env values depth self fmt path base mime ext Hsplit Hwrite
              Hdone (worksheets s) w)
    as (w' & events & files & Hrun & Hindex & Hhist & Hdl & Hh & Hnames & _).
  exists w'. split; [|split; [done|split; [|split]]].
  - cbn [Drive.export_rec].
    unfold bind at 1. rewrite Hsplit. rewrite Hfmt.
    apply Nat.ltb_lt in Hlen. rewrite Hlen. cbn [andb].
    unfold bind at 1. unfold bind at 1. rewrite Hrun. reflexivity.
  - unfold sent. by rewrite Hhist, drop_app_length.
  - unfold opened. by rewrite Hh, drop_app_length.
  - by rewrite Hh, take_app_length.
Qed.

(** The sheets of [doc], exported to CSV under the name "out". *)
Example export_doc_named :
  name <$> handles (snd (Drive.export accepting sample_values fresh (ASpreadsheet doc)
                           (Member CSV) "" (Some "out") w_doc))
  = ["out0.csv"; "out1.csv"].
Proof. reflexivity. Qed.

(** ** The nesting of [export] *)

Lemma export_worksheet_finishes env values depth self ws fmt path filename w :
  fst (Drive.export_rec env values depth self (AWorksheet ws) fmt path filename w)
  <> Unfinished.
Proof.
  destruct (split_format_cases values fmt) as [(mime & ext & Hsplit)|[e Hsplit]].
  - rewrite (export_worksheet_run env values depth self ws fmt path filename w mime ext Hsplit).
    cbv zeta. destruct (unwritable env _); [done|]. by destruct (ending _).
  - destruct depth; cbn [Drive.export_rec]; unfold bind at 1; by rewrite Hsplit.
Qed.

(** One level of nesting is enough: [export] always comes to an end. *)
Lemma export_finishes env values self sh fmt path filename w :
  fst (Drive.export env values self sh fmt path filename w) <> Unfinished.
Proof.
  destruct sh as [s|ws]; [|apply export_worksheet_finishes].
  unfold Drive.export. cbn [Drive.export_rec].
  apply bind_finishes.
  { destruct (split_format_cases values fmt) as [(m & e & H)|[e H]]; by rewrite H. }
  intros [mime ext] w1. apply bind_finishes.
  - destruct (_ && _); [|done].
    apply bind_finishes; [|done].
    apply for_each_finishes. intros ws w2.
    apply bind_finishes; [done|intros index w3].
    apply bind_finishes; [by destruct filename|intros name w4].
    exact (export_worksheet_finishes env values 0 self ws fmt path (Some name) w4).
  - intros [[request tmp]|] w2; [|done].
    cbv zeta. apply bind_finishes.
    { unfold open_file. by destruct (unwritable env _). }
    intros fh w3. apply bind_finishes; [done|intros d w4].
    apply bind_finishes.
    { rewrite download_chunks_run. by destruct (ending d). }
    intros _ w5. apply bind_finishes; [done|intros _ w6]. by destruct tmp.
Qed.

(** ** File handles *)

Lemma none_closed_refl w : none_closed w w.
Proof. exists 0%nat. by rewrite app_nil_r. Qed.

Lemma none_closed_trans w1 w2 w3 :
  none_closed w1 w2 -> none_closed w2 w3 -> none_closed w1 w3.
Proof.
  intros [k1 H1] [k2 H2]. exists (k1 + k2)%nat.
  by rewrite H2, H1, <- app_assoc, replicate_add.
Qed.

Lemma none_closed_same_handles w w' : handles w' = handles w -> none_closed w w'.
Proof. intros H. exists 0%nat. by rewrite H, app_nil_r. Qed.

Lemma keeps_open_bind {A B} (m : M A) (f : A -> M B) :
  keeps_open m -> (forall a, keeps_open (f a)) -> keeps_open (bind m f).
Proof.
  intros Hm Hf w. unfold bind. specialize (Hm w).
  destruct (m w) as [[a|e|] w1]; cbn [snd] in *; [|done|done].
  eapply none_closed_trans; [exact Hm|apply Hf].
Qed.

Lemma keeps_open_unchanged {A} (m : M A) :
  (forall w, handles (snd (m w)) = handles w) -> keeps_open m.
Proof. intros H w. by apply none_closed_same_handles. Qed.

Lemma keeps_open_open_file refused name : keeps_open (open_file refused name).
Proof.
  intros w. unfold open_file. destruct (refused name); [apply none_closed_refl|].
  exists 1%nat. cbn [snd handles]. by rewrite fmap_app.
Qed.

Lemma keeps_open_write_chunk fh : keeps_open (write_chunk fh).
Proof.
  intros w. exists 0%nat. cbn [write_chunk snd handles]. rewrite app_nil_r.
  rewrite (list_fmap_alter closed _ id); [by apply list_alter_id|].
  by apply Forall_forall.
Qed.

Lemma keeps_open_for_each {A} (body : A -> M unit) l :
  (forall x, keeps_open (body x)) -> keeps_open (for_each l body).
Proof.
  intros Hbody. induction l as [|x l IH]; simpl.
  - by apply keeps_open_unchanged.
  - apply keeps_open_bind; [apply Hbody|intros _; apply IH].
Qed.

Lemma keeps_open_download_chunks request fh last chunks : forall n,
  keeps_open (Drive.download_chunks request fh n chunks last).
Proof.
  induction chunks as [|st rest IH]; intros n; cbn [Drive.download_chunks].
  - apply keeps_open_bind; [by apply keeps_open_unchanged|intros _].
    destruct last; [|by apply keeps_open_unchanged].
    apply keeps_open_bind; [apply keeps_open_write_chunk|intros _].
    by apply keeps_open_unchanged.
  - apply keeps_open_bind; [by apply keeps_open_unchanged|intros _].
    apply keeps_open_bind; [apply keeps_open_write_chunk|intros _].
    apply keeps_open_bind; [by apply keeps_open_unchanged|intros _]. apply IH.
Qed.

Lemma keeps_open_export_rec env values self : forall depth sh fmt path filename,
  keeps_open (Drive.export_rec env values depth self sh fmt path filename).
Proof.
  assert (Htail : forall sh ext path filename (prepared : option (request * option Z)),
    keeps_open
      match prepared with
      | None => ret tt
      | Some (request, tmp) =>
          let file_name :=
            match filename with
            | None => Drive.str_id sh +:+ ext
            | Some filename => filename +:+ ext
            end in
          let* fh := open_file (unwritable env) (path +:+ file_name) in
          let* downloader := (fun w => (Ok (serve env w request), w)) in
          do Drive.download_chunks request fh 0 (partial_chunks downloader) (ending downloader) then
          do emit (Info "Download finished. File saved in %s."
                     [VStr (path +:+ file_name +:+ ext)]) then
          match tmp, sh with
          | Some tmp, AWorksheet ws => set_index ws tmp
          | _, _ => ret tt
          end
      end).
  { intros sh ext path filename [[request tmp]|]; [|by apply keeps_open_unchanged].
    cbv zeta.
    apply keeps_open_bind; [apply keeps_open_open_file|intros fh].
    apply keeps_open_bind; [by apply keeps_open_unchanged|intros d].
    apply keeps_open_bind; [apply keeps_open_download_chunks|intros _].
    apply keeps_open_bind; [by apply keeps_open_unchanged|intros _].
    destruct tmp, sh; by apply keeps_open_unchanged. }
  induction depth as [|depth IH]; intros sh fmt path filename; cbn [Drive.export_rec];
    (apply keeps_open_bind;
     [intros w; destruct (split_format_cases values fmt) as [(m & e & H)|[e H]];
      rewrite H; apply none_closed_refl|]);
    intros [mime ext]; (apply keeps_open_bind; [|intros prepared; apply Htail]);
    destruct sh as [s|ws].
  1,3: destruct (_ && _); [|by apply keeps_open_unchanged];
    (apply keeps_open_bind; [|intros _; by apply keeps_open_unchanged]);
    apply keeps_open_for_each; intros ws;
    (apply keeps_open_bind; [by apply keeps_open_unchanged|intros index]);
    (apply keeps_open_bind;
     [destruct filename; by apply keeps_open_unchanged
     |intros name; first [apply IH | by apply keeps_open_unchanged]]).
  all: (apply keeps_open_bind; [by apply keeps_open_unchanged|intros tmp]);
    (apply keeps_open_bind; [by apply keeps_open_unchanged|intros _]);
    by apply keeps_open_unchanged.
Qed.

(** C9, as the code has it.  [export] performs no close on a file handle:
    however the call ends, after a completed download or after a download
    that fails partway through, the handles that existed before are as open
    or closed as they were and every handle the call opened has not been
    closed by it. *)
Theorem export_never_closes env values self sh fmt path filename w :
  (forall h,
      h ∈ opened w (snd (Drive.export env values self sh fmt path filename w)) ->
      closed h = false)
  /\ closed <$> take (length (handles w))
                   (handles (snd (Drive.export env values self sh fmt path filename w)))
     = closed <$> handles w.
Proof.
  destruct (keeps_open_export_rec env values self 1 sh fmt path filename w) as [k Hk].
  fold (Drive.export env values self) in Hk.
  set (w' := snd (Drive.export env values self sh fmt path filename w)) in *.
  assert (Hlen : length (handles w) = length (closed <$> handles w))
    by (by rewrite length_fmap).
  split.
  - intros h Hh. unfold opened in Hh.
    apply (list_elem_of_fmap_2 closed) in Hh.
    rewrite fmap_drop, Hk, Hlen, drop_app_length in Hh.
    by apply elem_of_replicate_inv in Hh.
  - by rewrite fmap_take, Hk, Hlen, take_app_length.
Qed.

(** A download that breaks after its first chunk: [export] fails and leaves
    the output file open. *)
Lemma export_leaves_file_open :
  fst (Drive.export breaking sample_values fresh (AWorksheet first_sheet) PDF
         "" (Some "out") w_doc)
  = Raise (Provider forbidden)
  /\ ~ all_closed w_doc
         (snd (Drive.export breaking sample_values fresh (AWorksheet first_sheet) PDF
                 "" (Some "out") w_doc)).
Proof.
  split; [reflexivity|].
  intros Hall. specialize (Hall (FileHandle "out.pdf" 1 false)).
  discriminate Hall. vm_compute. left.
Qed.

(** ** Reading the discovery document *)

(** X24.  [__init__] closes the discovery document however it ends. *)
Lemma init_closes_document env data_path w :
  all_closed w (snd (Drive.__init__ env data_path w)).
Proof.
  unfold Drive.__init__, with_file, bind, open_file.
  destruct (bool_decide _).
  - intros h Hh. unfold opened in Hh. cbn [snd] in Hh. rewrite drop_all in Hh.
    by apply not_elem_of_nil in Hh.
  - intros h Hh. unfold opened in Hh.
    destruct (discovery_document env _) as [[doc|e]|];
      cbn [snd raise ret close_file handles] in Hh;
      replace (length (handles w)) with (length (handles w) + 0)%nat in Hh at 2 by lia;
      rewrite alter_app_r, drop_app_length in Hh; cbn [alter list_alter] in Hh;
      apply list_elem_of_singleton in Hh as ->; reflexivity.
Qed.

(** A wrapper is created with a retry budget of two. *)
Lemma init_retries env data_path w self w' :
  Drive.__init__ env data_path w = (Ok self, w') -> retries self = 2.
Proof.
  unfold Drive.__init__, with_file, bind, open_file.
  destruct (bool_decide _); [discriminate|].
  destruct (discovery_document env _) as [[doc|e]|]; cbn [raise ret];
    intros Heq; try discriminate; by injection Heq as <- _.
Qed.

(** * Further properties of the module *)

(** ** The request executor, in general *)

Lemma execute_loop_bounded env self request iter : forall w,
  exists k, (k <= length iter)%nat
            /\ snd (Drive._execute_request_loop env self request iter w)
               = attempts env request k w.
Proof.
  induction iter as [|i rest IH]; intros w.
  - exists 0%nat. done.
  - cbn [Drive._execute_request_loop length]. unfold Drive.request_execute.
    destruct (execute env w request) as [response|e].
    + exists 1%nat. split; [lia|done].
    + destruct (find (repr e) "timed out" =? -1); [exists 1%nat; split; [lia|done]|].
      destruct (i =? retries self - 1); [exists 1%nat; split; [lia|done]|].
      destruct (IH (snd (Drive.request_execute env request w))) as (k & Hk & Hw).
      exists (S k). split; [lia|exact Hw].
Qed.

(** X1.  Whatever the provider does, [_execute_request] executes the request
    it was given at most [retries] times and nothing else: it sends no other
    request, logs nothing, and touches neither the files nor the worksheets. *)
Theorem execute_request_bounded env self request w :
  exists k,
    (k <= Z.to_nat (retries self))%nat
    /\ history (snd (Drive._execute_request env self request w))
       = history w ++ replicate k (Executed request)
    /\ logs (snd (Drive._execute_request env self request w)) = logs w
    /\ handles (snd (Drive._execute_request env self request w)) = handles w
    /\ index_of (snd (Drive._execute_request env self request w)) = index_of w.
Proof.
  destruct (execute_loop_bounded env self request (range (retries self)) w)
    as (k & Hk & Hw).
  exists k. unfold Drive._execute_request. rewrite Hw.
  split.
  - unfold range in Hk. by rewrite length_map, length_seq in Hk.
  - split; [apply attempts_history|]. apply attempts_frame.
Qed.

(** X2.  After [k] timeout-classified failures, with [k] below the budget,
    the next attempt settles the call: its response is returned, or its
    error, when it is not timeout-classified, is raised as it is; the request
    has then been executed [k + 1] times. *)
Theorem execute_request_settles env self request w k :
  Z.of_nat k < retries self ->
  (forall j, (j < k)%nat -> exists e,
      attempt env request j w = Raises e /\ timeout_classified e = true) ->
  (forall v, attempt env request k w = Returns v ->
      Drive._execute_request env self request w
      = (Ok (Some v), attempts env request (S k) w))
  /\ (forall e, attempt env request k w = Raises e -> timeout_classified e = false ->
      Drive._execute_request env self request w
      = (Raise (Provider e), attempts env request (S k) w))
  /\ history (attempts env request (S k) w)
     = history w ++ replicate (S k) (Executed request).
Proof.
  intros Hk Hto.
  pose proof (execute_request_settled env self request w k Hk Hto) as Hex.
  split; [|split].
  - intros v Hv. by rewrite Hv in Hex.
  - intros e He Hc. rewrite He in Hex. by apply Hex.
  - apply attempts_history.
Qed.

Lemma execute_request_settles_witness :
  Z.of_nat 1 < retries fresh
  /\ Drive._execute_request timeout_then_forbidden fresh a_request w0
     = (Raise (Provider forbidden), attempts timeout_then_forbidden a_request 2 w0).
Proof.
  split; [reflexivity|].
  destruct (execute_request_settles timeout_then_forbidden fresh a_request w0 1 eq_refl)
    as (_ & Hraise & _).
  - intros j Hj. exists socket_timeout.
    destruct j as [|j]; [split; reflexivity|lia].
  - apply Hraise; reflexivity.
Defined.

(** ** A wrapper as constructed *)

(** X3.  A wrapper that [__init__] has returned is on the personal drive and
    gives a request two attempts: when every attempt times out, the call
    fails with [RequestError] after exactly two executions. *)
Theorem fresh_wrapper_retries_once env data_path w self w1 request w2 :
  Drive.__init__ env data_path w = (Ok self, w1) ->
  (forall j, exists e,
      attempt env request j w2 = Raises e /\ timeout_classified e = true) ->
  team_drive_active self = false
  /\ exists e,
       attempt env request 1 w2 = Raises e
       /\ Drive._execute_request env self request w2
          = (Raise (RequestError ("Timeout : " +:+ repr e)), attempts env request 2 w2)
       /\ history (attempts env request 2 w2)
          = history w2 ++ [Executed request; Executed request].
Proof.
  intros Hinit Hall.
  assert (Hself : self = Wrapper None 2).
  { revert Hinit. unfold Drive.__init__, with_file, bind, open_file.
    destruct (bool_decide _); [discriminate|].
    destruct (discovery_document env _) as [[doc|e]|]; cbn [raise ret];
      intros Heq; try discriminate; by injection Heq as <- _. }
  subst self. split; [reflexivity|].
  destruct (execute_request_exhausted env (Wrapper None 2) request w2) as (e & He & Hrun).
  - reflexivity.
  - intros j _. apply Hall.
  - exists e. split; [exact He|]. split; [exact Hrun|]. apply attempts_history.
Qed.

Lemma fresh_wrapper_retries_once_witness :
  Drive.__init__ installed_unreachable "data" w0
  = (Ok fresh, snd (Drive.__init__ installed_unreachable "data" w0))
  /\ Drive._execute_request installed_unreachable fresh a_request w0
     = (Raise (RequestError "Timeout : timeout('timed out')"),
        attempts installed_unreachable a_request 2 w0).
Proof.
  assert (Hinit : Drive.__init__ installed_unreachable "data" w0
                  = (Ok fresh, snd (Drive.__init__ installed_unreachable "data" w0)))
    by reflexivity.
  split; [exact Hinit|].
  destruct (fresh_wrapper_retries_once installed_unreachable "data" w0 fresh _ a_request w0
              Hinit) as (_ & e & He & Hrun & _).
  - intros j. exists socket_timeout. split; reflexivity.
  - injection He as <-. exact Hrun.
Defined.

(** ** The operations when the budget is used up before the first attempt *)

(** X4.  With a retry budget of zero or less nothing is sent, and the
    operations differ in what they make of the missing response: [delete]
    returns as if it had succeeded, while [get_update_time], [list] and
    [list_permissions] fail with [TypeError] when they subscript it. *)
Theorem operations_without_budget env fuel self file_id (kwargs : dict) w :
  retries self <= 0 ->
  kwargs !! "fileId" = None ->
  Drive.delete env self file_id kwargs w = (Ok tt, w)
  /\ Drive.get_update_time env self file_id w
     = (Raise (TypeError "'NoneType' object is not subscriptable"), w)
  /\ Drive.list env fuel self kwargs w
     = (Raise (TypeError "'NoneType' object is not subscriptable"), w)
  /\ Drive.list_permissions env fuel self file_id kwargs w
     = (Raise (TypeError "'NoneType' object is not subscriptable"), w).
Proof.
  intros Hle Hfile.
  assert (Hnone : forall q, Drive._execute_request env self q w = (Ok None, w)).
  { intros q. unfold Drive._execute_request, range.
    replace (Z.to_nat (retries self)) with 0%nat by lia. reflexivity. }
  split; [|split; [|split]].
  - unfold Drive.delete. unfold bind at 1. rewrite call_built.
    + unfold bind. by rewrite Hnone.
    + intros k Hk. simpl in Hk. by apply list_elem_of_singleton in Hk as ->.
  - unfold Drive.get_update_time, bind. by rewrite Hnone.
  - unfold Drive.list. unfold bind at 1. by rewrite Hnone.
  - unfold Drive.list_permissions. unfold bind at 1. rewrite call_built.
    + unfold bind at 1. by rewrite Hnone.
    + intros k Hk. simpl in Hk. apply list_elem_of_singleton in Hk as ->.
      fold (permission_kwargs self kwargs). by rewrite permission_kwargs_other.
Qed.

Lemma operations_without_budget_witness :
  retries (Wrapper None 0) <= 0
  /\ by_name !! "fileId" = None
  /\ Drive.delete accepting (Wrapper None 0) "file" by_name w0 = (Ok tt, w0)
  /\ Drive.list accepting 0 (Wrapper None 0) by_name w0
     = (Raise (TypeError "'NoneType' object is not subscriptable"), w0).
Proof.
  assert (Hfile : by_name !! "fileId" = None) by reflexivity.
  assert (Hle : retries (Wrapper None 0) <= 0) by (simpl; lia).
  destruct (operations_without_budget accepting 0 (Wrapper None 0) "file" by_name w0 Hle Hfile)
    as (Hdelete & _ & Hlist & _).
  split; [exact Hle|]. split; [exact Hfile|]. split; [exact Hdelete|exact Hlist].
Defined.

(** ** Reading the modification time *)

(** X5.  [get_update_time] sends one request for the [modifiedTime] field of
    the file and returns that field of the response; a response without the
    field makes it fail with [KeyError]. *)
Theorem get_update_time_reads_field env self file_id w r :
  0 < retries self ->
  execute env w (update_time_request file_id) = Returns r ->
  Drive.get_update_time env self file_id w
  = (match r !! "modifiedTime" with
     | Some time => Ok time
     | None => Raise (KeyError "modifiedTime")
     end,
     World (history w ++ [Executed (update_time_request file_id)])
           (logs w) (handles w) (index_of w)).
Proof.
  intros Hpos Hr. unfold Drive.get_update_time. unfold bind.
  fold (update_time_request file_id).
  rewrite (execute_request_answered env self _ w r Hpos Hr).
  unfold subscript. by destruct (r !! "modifiedTime").
Qed.

Lemma get_update_time_reads_field_witness :
  0 < retries fresh
  /\ fst (Drive.get_update_time dated fresh "file" w0) = Ok (VStr "2018-01-01T00:00:00.000Z")
  /\ fst (Drive.get_update_time accepting fresh "file" w0) = Raise (KeyError "modifiedTime").
Proof.
  split; [reflexivity|]. split.
  - rewrite (get_update_time_reads_field dated fresh "file" w0
               {[ "modifiedTime" := VStr "2018-01-01T00:00:00.000Z" ]});
      reflexivity.
  - rewrite (get_update_time_reads_field accepting fresh "file" w0 ∅); reflexivity.
Defined.

(** ** Moving and deleting files *)

(** X6.  [move_file] refuses a keyword that repeats one of its own arguments
    before anything is sent; otherwise it sends one request that names the
    file, the folder to leave and the folder to enter beside the caller's
    keywords, and returns nothing when the provider answers. *)
Theorem move_file_request_sent env self file_id old_folder new_folder (kwargs : dict) w :
  (forall key, key ∈ ["fileId"; "removeParents"; "addParents"] ->
      is_Some (kwargs !! key) ->
      exists msg, Drive.move_file env self file_id old_folder new_folder kwargs w
                  = (Raise (TypeError msg), w))
  /\ (kwargs !! "fileId" = None -> kwargs !! "removeParents" = None ->
      kwargs !! "addParents" = None ->
      let request := move_file_request file_id old_folder new_folder kwargs in
      params request !! "fileId" = Some (VStr file_id)
      /\ params request !! "removeParents" = Some (VStr old_folder)
      /\ params request !! "addParents" = Some (VStr new_folder)
      /\ (forall key, key ∉ ["fileId"; "removeParents"; "addParents"] ->
             params request !! key = kwargs !! key)
      /\ (0 < retries self -> forall r, execute env w request = Returns r ->
          Drive.move_file env self file_id old_folder new_folder kwargs w
          = (Ok tt, World (history w ++ [Executed request]) (logs w) (handles w) (index_of w)))).
Proof.
  split.
  - intros key Hkey Hsome. unfold Drive.move_file. unfold bind at 1.
    destruct (call_cases files_update
                [("fileId", VStr file_id); ("removeParents", VStr old_folder);
                 ("addParents", VStr new_folder)] None kwargs w)
      as [(k & _ & _ & ->)|[Hfree _]]; [by eexists|].
    rewrite (Hfree key) in Hsome; [by destruct Hsome|].
    simpl. exact Hkey.
  - intros Hf Hr Ha request.
    assert (Hother : forall key, key ∉ ["fileId"; "removeParents"; "addParents"] ->
                                 params request !! key = kwargs !! key).
    { intros key Hkey. cbn [request move_file_request params].
      rewrite lookup_union_r; [done|]. apply not_elem_of_list_to_map.
      simpl. exact Hkey. }
    split; [by apply lookup_union_Some_l|].
    split; [by apply lookup_union_Some_l|].
    split; [by apply lookup_union_Some_l|].
    split; [exact Hother|].
    intros Hpos r Hexec. unfold Drive.move_file. unfold bind at 1. rewrite call_built.
    + unfold bind. fold (move_file_request file_id old_folder new_folder kwargs).
      fold request. by rewrite (execute_request_answered env self _ w r Hpos Hexec).
    + intros k Hk. simpl in Hk. set_unfold in Hk. by destruct Hk as [->|[->|[->|[]]]].
Qed.

Lemma move_file_request_sent_witness :
  0 < retries fresh
  /\ Drive.move_file accepting fresh "file" "old" "new" by_name w0
     = (Ok tt, World [Executed (move_file_request "file" "old" "new" by_name)] [] [] (index_of w0))
  /\ exists msg,
       Drive.move_file accepting fresh "file" "old" "new" {[ "addParents" := VStr "other" ]} w0
       = (Raise (TypeError msg), w0).
Proof.
  split; [reflexivity|]. split.
  - destruct (move_file_request_sent accepting fresh "file" "old" "new" by_name w0)
      as (_ & Hsent).
    destruct Hsent as (_ & _ & _ & _ & Hrun); [reflexivity..|].
    apply (Hrun eq_refl ∅). reflexivity.
  - destruct (move_file_request_sent accepting fresh "file" "old" "new"
                {[ "addParents" := VStr "other" ]} w0) as (Hrefused & _).
    apply (Hrefused "addParents").
    + set_unfold. tauto.
    + by eexists.
Defined.

(** ** The checks of [create_permission], in their order *)

Lemma existsb_eqb_elem_of (x : string) (l : Datatypes.list string) :
  existsb (String.eqb x) l = true <-> x ∈ l.
Proof.
  rewrite existsb_exists. split.
  - intros (y & Hin & Heq). apply String.eqb_eq in Heq as ->. by apply list_elem_of_In.
  - intros Hin. exists x. split; [by apply list_elem_of_In|apply String.eqb_refl].
Qed.

Lemma existsb_eqb_not_elem_of (x : string) (l : Datatypes.list string) :
  existsb (String.eqb x) l = false <-> x ∉ l.
Proof.
  rewrite <- existsb_eqb_elem_of. by destruct (existsb _ _).
Qed.

Lemma team_drive_support_lookup self (kwargs : dict) :
  Drive.with_team_drive_support self kwargs !! "supportsTeamDrives"
  = team_drive_support self kwargs.
Proof.
  unfold Drive.with_team_drive_support, team_drive_support.
  destruct (has_key kwargs "supportsTeamDrives") eqn:Hk.
  - apply has_key_true in Hk as [v Hv]. by rewrite Hv.
  - apply has_key_false in Hk. rewrite Hk. cbn [negb andb].
    destruct (team_drive_active self); [by rewrite lookup_insert_eq|done].
Qed.

(** X7.  [create_permission] checks its arguments in a fixed order and sends
    nothing when a check fails: two grantee fields are reported first,
    whatever the role and the type; then a role outside [PERMISSION_ROLES];
    then a type outside [PERMISSION_TYPES], whose message lists the types but
    speaks of a permission role as well. *)
Theorem create_permission_check_order env ua self file_id role type (kwargs : dict) w :
  (is_Some (kwargs !! "emailAddress") -> is_Some (kwargs !! "domain") ->
   Drive.create_permission env ua self file_id role type kwargs w
   = (Raise (InvalidArgumentValue
               "A permission can only use emailAddress or domain. Do not specify both."), w))
  /\ (~ (is_Some (kwargs !! "emailAddress") /\ is_Some (kwargs !! "domain")) ->
      role ∉ PERMISSION_ROLES ->
      Drive.create_permission env ua self file_id role type kwargs w
      = (Raise (InvalidArgumentValue
                  "A permission role can only be one of ['organizer', 'owner', 'writer', 'commenter', 'reader']."),
         w))
  /\ (~ (is_Some (kwargs !! "emailAddress") /\ is_Some (kwargs !! "domain")) ->
      role ∈ PERMISSION_ROLES -> type ∉ PERMISSION_TYPES ->
      Drive.create_permission env ua self file_id role type kwargs w
      = (Raise (InvalidArgumentValue
                  "A permission role can only be one of ['user', 'group', 'domain', 'anyone']."),
         w)).
Proof.
  unfold Drive.create_permission.
  set (kw := Drive.with_team_drive_support self kwargs).
  assert (Hkw : forall key, key <> "supportsTeamDrives" -> has_key kw key = has_key kwargs key).
  { intros key Hne. unfold has_key, kw. by rewrite team_drive_support_other. }
  rewrite !Hkw by done.
  split; [|split].
  - intros He Hd. apply has_key_true in He, Hd. by rewrite He, Hd.
  - intros Hnot Hrole.
    destruct (has_key kwargs "emailAddress" && has_key kwargs "domain") eqn:Hboth.
    { apply andb_true_iff in Hboth as [He Hd]. apply has_key_true in He, Hd. tauto. }
    apply existsb_eqb_not_elem_of in Hrole. by rewrite Hrole.
  - intros Hnot Hrole Htype.
    destruct (has_key kwargs "emailAddress" && has_key kwargs "domain") eqn:Hboth.
    { apply andb_true_iff in Hboth as [He Hd]. apply has_key_true in He, Hd. tauto. }
    apply existsb_eqb_elem_of in Hrole. apply existsb_eqb_not_elem_of in Htype.
    by rewrite Hrole, Htype.
Qed.

Lemma create_permission_check_order_witness :
  Drive.create_permission accepting ascii_only fresh "file" "janitor" "robot"
    {[ "emailAddress" := VStr "someone@example.org"; "domain" := VStr "example.org" ]} w0
  = (Raise (InvalidArgumentValue
              "A permission can only use emailAddress or domain. Do not specify both."), w0)
  /\ Drive.create_permission accepting ascii_only fresh "file" "janitor" "robot" ∅ w0
     = (Raise (InvalidArgumentValue
                 "A permission role can only be one of ['organizer', 'owner', 'writer', 'commenter', 'reader']."),
        w0)
  /\ Drive.create_permission accepting ascii_only fresh "file" "reader" "robot" ∅ w0
     = (Raise (InvalidArgumentValue
                 "A permission role can only be one of ['user', 'group', 'domain', 'anyone']."),
        w0).
Proof.
  split; [|split].
  - apply (create_permission_check_order accepting ascii_only fresh "file" "janitor" "robot").
    + by eexists.
    + by eexists.
  - apply (create_permission_check_order accepting ascii_only fresh "file" "janitor" "robot").
    + intros [[v Hv] _]. discriminate Hv.
    + compute_done.
  - apply (create_permission_check_order accepting ascii_only fresh "file" "reader" "robot").
    + intros [[v Hv] _]. discriminate Hv.
    + compute_done.
    + compute_done.
Defined.

(** ** The request of [create_permission] *)

Lemma move_key_absent key (st : dict * dict) :
  st.2 !! key = None -> Drive.move_key key st = st.
Proof. destruct st as [b kw]. unfold Drive.move_key. simpl. by intros ->. Qed.

(** Moving a list of keywords one after the other: each one ends in the body
    when the caller gave it and is gone from the parameters; every other key
    is where it was. *)
Lemma move_keys_lookup keys : forall (st : dict * dict),
  let st' := foldl (fun s key => Drive.move_key key s) st keys in
  (forall key, key ∈ keys ->
      st'.1 !! key = match st.2 !! key with Some v => Some v | None => st.1 !! key end
      /\ st'.2 !! key = None)
  /\ (forall key, key ∉ keys -> st'.1 !! key = st.1 !! key /\ st'.2 !! key = st.2 !! key).
Proof.
  induction keys as [|k keys IH]; intros st; cbn [foldl].
  - split; [intros key Hin; by apply elem_of_nil in Hin|done].
  - destruct (IH (Drive.move_key k st)) as [Hin Hout]. cbv zeta in Hin, Hout. split.
    + intros key Hkey. destruct (decide (key ∈ keys)) as [Hk|Hk].
      * destruct (Hin key Hk) as [Hb Hp]. split; [|exact Hp]. rewrite Hb.
        destruct (decide (key = k)) as [->|Hne].
        -- rewrite move_key_kwargs, decide_True by done. apply move_key_moved.
        -- by rewrite move_key_kwargs, decide_False, move_key_body.
      * apply elem_of_cons in Hkey as [->|Hkey]; [|done].
        destruct (Hout k Hk) as [Hb Hp]. rewrite Hb, Hp. split; [apply move_key_moved|].
        by rewrite move_key_kwargs, decide_True.
    + intros key Hkey. apply not_elem_of_cons in Hkey as [Hne Hkey].
      destruct (Hout key Hkey) as [Hb Hp]. rewrite Hb, Hp.
      by rewrite move_key_body, move_key_kwargs, decide_False.
Qed.

(** X8.  The request that [create_permission] builds from valid arguments:
    the body holds [kind], [type] and [role] and the body keywords the
    caller gave, and nothing else; those keywords are gone from the request
    parameters, which carry the file id, the team drive flag ([True] on a
    team drive unless the caller set it) and the caller's other keywords
    unchanged. *)
Theorem create_permission_request env ua self file_id role type (kwargs : dict) w :
  role ∈ PERMISSION_ROLES -> type ∈ PERMISSION_TYPES ->
  ~ (is_Some (kwargs !! "emailAddress") /\ is_Some (kwargs !! "domain")) ->
  (forall v, kwargs !! "emailAddress" = Some v ->
     exists text, v = VStr text /\ re_match (_EMAIL_PATTERN ua) text = true) ->
  kwargs !! "fileId" = None -> kwargs !! "body" = None ->
  exists parameters b,
    Drive.create_permission env ua self file_id role type kwargs w
    = Drive._execute_request env self (Request permissions_create parameters (Some b)) w
    /\ b !! "kind" = Some (VStr "drive#permission")
    /\ b !! "type" = Some (VStr type)
    /\ b !! "role" = Some (VStr role)
    /\ (forall key, key ∈ body_keywords ->
          b !! key = kwargs !! key /\ parameters !! key = None)
    /\ (forall key, key ∉ ["kind"; "type"; "role"] ++ body_keywords -> b !! key = None)
    /\ parameters !! "fileId" = Some (VStr file_id)
    /\ parameters !! "supportsTeamDrives" = team_drive_support self kwargs
    /\ (forall key, key ∉ "fileId" :: "supportsTeamDrives" :: body_keywords ->
          parameters !! key = kwargs !! key).
Proof.
  intros Hrole Htype Hnot Haddr Hfile Hbody.
  apply existsb_eqb_elem_of in Hrole, Htype.
  unfold Drive.create_permission.
  set (kw := Drive.with_team_drive_support self kwargs).
  assert (Hkw : forall key, key <> "supportsTeamDrives" -> kw !! key = kwargs !! key)
    by (intros; by apply team_drive_support_other).
  assert (Hboth : has_key kw "emailAddress" && has_key kw "domain" = false).
  { destruct (has_key kw "emailAddress") eqn:He, (has_key kw "domain") eqn:Hd; try done.
    apply has_key_true in He, Hd. rewrite Hkw in He, Hd by done. tauto. }
  rewrite Hboth, Hrole, Htype. cbn [negb].
  set (body0 := ({[ "kind" := VStr "drive#permission"; "type" := VStr type;
                    "role" := VStr role ]} : dict)).
  (* the choice between the grantee fields moves both keywords *)
  assert (Hstate :
    (if has_key kw "emailAddress" then
       let* address := kwarg kw "emailAddress" in
       match address with
       | VStr text =>
           if re_match (_EMAIL_PATTERN ua) text
           then ret (Drive.move_key "emailAddress" (body0, kw))
           else raise (InvalidArgumentValue
                         ("The provided e-mail address doesn't have a valid format: "
                          +:+ text +:+ "."))
       | _ => raise (TypeError "expected string or bytes-like object")
       end
     else if has_key kw "domain" then ret (Drive.move_key "domain" (body0, kw))
     else ret (body0, kw)) w
    = (Ok (Drive.move_key "domain" (Drive.move_key "emailAddress" (body0, kw))), w)).
  { destruct (has_key kw "emailAddress") eqn:He.
    - cbn [andb] in Hboth. apply has_key_false in Hboth.
      apply has_key_true in He as [v Hv].
      destruct (Haddr v) as (text & -> & Hmatch); [by rewrite <- Hkw|].
      unfold kwarg, bind. rewrite Hv. cbn [ret]. rewrite Hmatch.
      rewrite (move_key_absent "domain"); [done|].
      by rewrite move_key_kwargs, decide_False.
    - apply has_key_false in He.
      rewrite (move_key_absent "emailAddress") by done.
      destruct (has_key kw "domain") eqn:Hd; [done|].
      apply has_key_false in Hd. by rewrite (move_key_absent "domain"). }
  unfold bind at 1. rewrite Hstate.
  change (Drive.move_key "expirationTime"
            (Drive.move_key "allowFileDiscovery"
               (Drive.move_key "domain" (Drive.move_key "emailAddress" (body0, kw)))))
    with (foldl (fun s key => Drive.move_key key s) (body0, kw) body_keywords).
  destruct (move_keys_lookup body_keywords (body0, kw)) as [Hin Hout]. cbv zeta in Hin, Hout.
  destruct (foldl _ _ body_keywords) as [b k]. cbn [fst snd] in Hin, Hout.
  assert (Hk : forall key, key ∉ body_keywords -> k !! key = kw !! key)
    by (intros key Hkey; by destruct (Hout key Hkey)).
  destruct (call_cases permissions_create [("fileId", VStr file_id)] (Some b) k w)
    as [(key & Hkey & [v Hv] & _)|[_ Hcall]].
  { exfalso. simpl in Hkey. apply elem_of_cons in Hkey as [->|Hkey].
    - rewrite Hk, Hkw in Hv by compute_done. congruence.
    - apply list_elem_of_singleton in Hkey as ->.
      rewrite Hk, Hkw in Hv by compute_done. congruence. }
  unfold bind. rewrite Hcall.
  exists (list_to_map [("fileId", VStr file_id)] ∪ k), b. split; [reflexivity|].
  assert (Hb : forall key, key ∉ body_keywords -> b !! key = body0 !! key)
    by (intros key Hkey; by destruct (Hout key Hkey)).
  assert (Hparams : forall key, key <> "fileId" ->
            (list_to_map [("fileId", VStr file_id)] ∪ k : dict) !! key = k !! key).
  { intros key Hne. rewrite lookup_union_r; [done|]. apply not_elem_of_list_to_map.
    simpl. apply not_elem_of_cons. split; [done|apply not_elem_of_nil]. }
  split; [rewrite Hb by compute_done; reflexivity|].
  split; [rewrite Hb by compute_done; reflexivity|].
  split; [rewrite Hb by compute_done; reflexivity|].
  split.
  { intros key Hkey. destruct (Hin key Hkey) as [Hbk Hpk].
    assert (Hne : key <> "fileId" /\ key <> "supportsTeamDrives").
    { unfold body_keywords in Hkey. rewrite !elem_of_cons in Hkey.
      destruct Hkey as [->|[->|[->|[->|Hkey]]]]; [done..|by apply elem_of_nil in Hkey]. }
    destruct Hne as [Hne1 Hne2]. split.
    - rewrite Hbk, Hkw by done.
      assert (Hfresh : body0 !! key = None).
      { unfold body_keywords in Hkey. rewrite !elem_of_cons in Hkey.
        destruct Hkey as [->|[->|[->|[->|Hkey]]]]; [done..|by apply elem_of_nil in Hkey]. }
      rewrite Hfresh. by destruct (kwargs !! key).
    - by rewrite Hparams. }
  split.
  { intros key Hkey. apply not_elem_of_app in Hkey as [Hfixed Hkey].
    rewrite Hb by done. unfold body0.
    rewrite !not_elem_of_cons in Hfixed. destruct Hfixed as (H1 & H2 & H3 & _).
    rewrite !lookup_insert_ne by done. by apply lookup_singleton_ne. }
  split; [by apply lookup_union_Some_l|].
  split.
  { rewrite Hparams by done. rewrite Hk by compute_done. apply team_drive_support_lookup. }
  intros key Hkey. apply not_elem_of_cons in Hkey as [Hf Hkey].
  apply not_elem_of_cons in Hkey as [Hs Hkey].
  by rewrite Hparams, Hk, Hkw.
Qed.

Lemma create_permission_request_witness :
  exists parameters b,
    Drive.create_permission accepting ascii_only on_team_drive "file" "writer" "user"
      share_quietly w0
    = Drive._execute_request accepting on_team_drive
        (Request permissions_create parameters (Some b)) w0
    /\ b !! "emailAddress" = Some (VStr "someone@example.org")
    /\ parameters !! "emailAddress" = None
    /\ parameters !! "supportsTeamDrives" = Some (VBool true)
    /\ parameters !! "sendNotificationEmail" = Some (VBool false).
Proof.
  destruct (create_permission_request accepting ascii_only on_team_drive "file" "writer" "user"
              share_quietly w0)
    as (parameters & b & Hrun & _ & _ & _ & Hmoved & _ & _ & Hteam & Hother).
  - compute_done.
  - compute_done.
  - intros [_ [v Hv]]. discriminate Hv.
  - intros v Hv. exists "someone@example.org". split; [|reflexivity].
    assert (Hlookup : share_quietly !! "emailAddress" = Some (VStr "someone@example.org"))
      by reflexivity.
    congruence.
  - reflexivity.
  - reflexivity.
  - exists parameters, b. split; [exact Hrun|].
    destruct (Hmoved "emailAddress") as [Hb Hp]; [compute_done|].
    split; [exact Hb|]. split; [exact Hp|]. split; [exact Hteam|].
    apply Hother. compute_done.
Defined.

(** ** The request of [delete_permission] *)

(** X9.  [delete_permission] names the file and the permission in its
    request, adds the team drive flag like [create_permission] and leaves
    the caller's other keywords as they are; when the provider answers, if
    need be after timeouts, the call returns nothing and logs nothing. *)
Theorem delete_permission_request_sent env self file_id permission_id (kwargs : dict) w :
  kwargs !! "fileId" = None ->
  kwargs !! "permissionId" = None ->
  let request := delete_permission_request self file_id permission_id kwargs in
  endpoint_of request = permissions_delete
  /\ body request = None
  /\ params request !! "fileId" = Some (VStr file_id)
  /\ params request !! "permissionId" = Some (VStr permission_id)
  /\ params request !! "supportsTeamDrives" = team_drive_support self kwargs
  /\ (forall key, key ∉ ["fileId"; "permissionId"; "supportsTeamDrives"] ->
        params request !! key = kwargs !! key)
  /\ (forall k r,
        Z.of_nat k < retries self ->
        (forall j, (j < k)%nat -> exists e,
            attempt env request j w = Raises e /\ timeout_classified e = true) ->
        attempt env request k w = Returns r ->
        Drive.delete_permission env self file_id permission_id kwargs w
        = (Ok tt, World (history w ++ replicate (S k) (Executed request))
                        (logs w) (handles w) (index_of w))).
Proof.
  intros Hf Hp request.
  assert (Hparams : forall key, key <> "fileId" -> key <> "permissionId" ->
            params request !! key = Drive.with_team_drive_support self kwargs !! key).
  { intros key H1 H2. cbn [request delete_permission_request params].
    rewrite lookup_union_r; [done|]. apply not_elem_of_list_to_map. simpl.
    rewrite !not_elem_of_cons. split; [done|]. split; [done|apply not_elem_of_nil]. }
  split; [done|]. split; [done|].
  split; [by apply lookup_union_Some_l|].
  split; [by apply lookup_union_Some_l|].
  split; [rewrite Hparams by done; apply team_drive_support_lookup|].
  split.
  { intros key Hkey. rewrite !not_elem_of_cons in Hkey. destruct Hkey as (H1 & H2 & H3 & _).
    rewrite Hparams by done. by apply team_drive_support_other. }
  intros k r Hk Hbefore Hr.
  unfold Drive.delete_permission, try_except_HttpError.
  unfold bind at 1. rewrite call_built.
  - pose proof (execute_request_settled env self request w k Hk Hbefore) as Hrun.
    rewrite Hr in Hrun.
    pose proof (attempts_history env request (S k) w) as Hh.
    pose proof (attempts_frame env request (S k) w) as (Hl & Hha & Hi).
    unfold request, delete_permission_request in Hrun, Hh, Hl, Hha, Hi |- *.
    unfold bind. rewrite Hrun. cbn [ret]. f_equal.
    destruct (attempts env _ (S k) w) as [h l ha i]. simpl in *. by subst.
  - intros key Hkey. simpl in Hkey. rewrite team_drive_support_other.
    + apply elem_of_cons in Hkey as [->|Hkey]; [done|].
      by apply list_elem_of_singleton in Hkey as ->.
    + intros ->. apply elem_of_cons in Hkey as [?|Hkey]; [done|].
      by apply list_elem_of_singleton in Hkey.
Qed.

Lemma delete_permission_request_sent_witness :
  Drive.delete_permission flaky on_team_drive "file" "permission" ∅ w0
  = (Ok tt,
     World (replicate 2 (Executed (delete_permission_request on_team_drive "file" "permission" ∅)))
           [] [] (index_of w0))
  /\ params (delete_permission_request on_team_drive "file" "permission" ∅)
       !! "supportsTeamDrives" = Some (VBool true).
Proof.
  assert (Hnone : forall key, (∅ : dict) !! key = None) by (intros; apply lookup_empty).
  destruct (delete_permission_request_sent flaky on_team_drive "file" "permission" ∅ w0
              (Hnone _) (Hnone _)) as (_ & _ & _ & _ & Hteam & _ & Hrun).
  split; [|exact Hteam].
  apply (Hrun 1%nat {[ "id" := VStr "1" ]}).
  - reflexivity.
  - intros j Hj. exists socket_timeout. destruct j as [|j]; [split; reflexivity|lia].
  - reflexivity.
Defined.

(** ** What depends on the wrapper *)

Lemma bind_ext {A B} (m m' : M A) (f g : A -> M B) w :
  m w = m' w -> (forall a w', f a w' = g a w') -> bind m f w = bind m' g w.
Proof.
  intros Hm Hf. unfold bind. rewrite Hm.
  destruct (m' w) as [[a| |] w']; [apply Hf|done..].
Qed.


(** The executor reads the retry budget of the wrapper and nothing else. *)
Lemma execute_request_same_budget env a b request w :
  retries a = retries b ->
  Drive._execute_request env a request w = Drive._execute_request env b request w.
Proof.
  intros Hr. unfold Drive._execute_request. rewrite Hr.
  generalize (range (retries b)). intros iter. revert w.
  induction iter as [|i rest IH]; intros w; [done|].
  cbn [Drive._execute_request_loop]. rewrite Hr.
  destruct (Drive.request_execute env request w) as [[v|e] w']; [done|].
  destruct (_ =? _); [done|]. destruct (_ =? _); [done|]. apply IH.
Qed.

Lemma list_while_same_budget env a b : retries a = retries b ->
  forall fuel kwargs response result w,
    Drive.list_while env fuel a kwargs response result w
    = Drive.list_while env fuel b kwargs response result w.
Proof.
  intros Hr. induction fuel as [|fuel IH]; intros kwargs response result w;
    cbn [Drive.list_while]; [done|].
  apply bind_ext; [done|]. intros [|] w1; [|done].
  apply bind_ext; [done|]. intros token w2.
  apply bind_ext; [by apply execute_request_same_budget|]. intros response' w3.
  apply bind_ext; [done|]. intros page w4.
  apply bind_ext; [done|]. intros result' w5. apply IH.
Qed.

(** X10.  The team drive of the wrapper plays no part in [delete],
    [move_file], [get_update_time] and [list]: pointing the wrapper at a
    team drive changes neither what they send nor what they return. *)
Theorem team_drive_ignored env fuel self team_drive_id :
  let other := Drive.enable_team_drive self team_drive_id in
  (forall file_id kwargs w,
      Drive.delete env other file_id kwargs w = Drive.delete env self file_id kwargs w)
  /\ (forall file_id old_folder new_folder kwargs w,
        Drive.move_file env other file_id old_folder new_folder kwargs w
        = Drive.move_file env self file_id old_folder new_folder kwargs w)
  /\ (forall file_id w,
        Drive.get_update_time env other file_id w = Drive.get_update_time env self file_id w)
  /\ (forall kwargs w,
        Drive.list env fuel other kwargs w = Drive.list env fuel self kwargs w).
Proof.
  intros other.
  assert (Hr : retries other = retries self) by reflexivity.
  split; [|split; [|split]].
  - intros file_id kwargs w. unfold Drive.delete.
    apply bind_ext; [done|]. intros request w1.
    apply bind_ext; [by apply execute_request_same_budget|done].
  - intros file_id old_folder new_folder kwargs w. unfold Drive.move_file.
    apply bind_ext; [done|]. intros request w1.
    apply bind_ext; [by apply execute_request_same_budget|done].
  - intros file_id w. unfold Drive.get_update_time.
    apply bind_ext; [by apply execute_request_same_budget|done].
  - intros kwargs w. unfold Drive.list.
    apply bind_ext; [by apply execute_request_same_budget|]. intros response w1.
    apply bind_ext; [done|]. intros page w2.
    apply bind_ext; [done|]. intros result w3.
    apply bind_ext; [by apply list_while_same_budget|done].
Qed.

(** ** [export] and the executor *)









(** ** The requests of [list], page after page *)

Lemma next_pages_lookup : forall responses (kwargs : dict) i q,
  next_pages kwargs responses !! i = Some q ->
  endpoint_of q = files_list
  /\ body q = None
  /\ (exists r token, responses !! i = Some r
                      /\ r !! "nextPageToken" = Some token
                      /\ params q !! "pageToken" = Some token)
  /\ (forall key, key <> "pageToken" -> params q !! key = kwargs !! key).
Proof.
  induction responses as [|r rest IH]; intros kwargs i q Hq; [done|].
  destruct rest as [|r' rest]; [done|].
  cbn [next_pages] in Hq. destruct (r !! "nextPageToken") as [token|] eqn:Htoken; [|done].
  destruct i as [|i].
  - injection Hq as <-. split; [done|]. split; [done|]. split.
    + exists r, token. split; [done|]. split; [done|]. apply lookup_insert_eq.
    + intros key Hne. cbn [params]. by rewrite lookup_insert_ne.
  - destruct (IH _ i q Hq) as (He & Hb & (r1 & token1 & Hr1 & Ht1 & Hp1) & Hother).
    split; [done|]. split; [done|]. split.
    + by exists r1, token1.
    + intros key Hne. rewrite Hother by done. by rewrite lookup_insert_ne.
Qed.

(** X12.  The requests of [list]: the first one carries the caller's
    keywords as they are, and the request for each further page carries them
    too, with [pageToken] set to the continuation token of the response
    before; there is one request per page, also when the call then fails on
    the incomplete search. *)
Theorem list_requests_follow_tokens env self r rest (kwargs : dict) w fuel :
  0 < retries self ->
  paginated "files" (r :: rest) ->
  answers env w (r :: rest) ->
  (length rest <= fuel)%nat ->
  exists requests,
    sent w (snd (Drive.list env fuel self kwargs w)) = Executed <$> requests
    /\ length requests = length (r :: rest)
    /\ requests !! 0%nat = Some (Request files_list kwargs None)
    /\ (forall i q, requests !! S i = Some q ->
          endpoint_of q = files_list
          /\ body q = None
          /\ (exists response token,
                (r :: rest) !! i = Some response
                /\ response !! "nextPageToken" = Some token
                /\ params q !! "pageToken" = Some token)
          /\ (forall key, key <> "pageToken" -> params q !! key = kwargs !! key)).
Proof.
  intros Hpos Hpag Hans Hfuel.
  exists (Request files_list kwargs None :: next_pages kwargs (r :: rest)).
  split; [|split; [|split]].
  - rewrite (list_run env self r rest kwargs w fuel Hpos Hpag Hans Hfuel).
    unfold sent.
    destruct (incomplete _); [destruct (kwargs !! "corpora")|];
      cbn [snd log history]; by rewrite drop_app_length.
  - cbn [length]. by rewrite (next_pages_length "files" (r :: rest) kwargs Hpag).
  - done.
  - intros i q Hq. by apply next_pages_lookup.
Qed.

Lemma list_requests_follow_tokens_witness :
  exists requests,
    sent w0 (snd (Drive.list two_pages 1 fresh by_name w0)) = Executed <$> requests
    /\ length requests = 2%nat
    /\ (forall q, requests !! 1%nat = Some q ->
          params q !! "pageToken" = Some (VStr "t1")
          /\ params q !! "q" = Some (VStr "name contains 'report'")).
Proof.
  destruct (list_requests_follow_tokens two_pages fresh first_page [last_page] by_name w0 1)
    as (requests & Hsent & Hlen & _ & Hnext).
  - reflexivity.
  - apply two_pages_paginated.
  - apply two_pages_answers.
  - simpl. lia.
  - exists requests. split; [exact Hsent|]. split; [exact Hlen|].
    intros q Hq. destruct (Hnext 0%nat q Hq) as (_ & _ & (response & token & Hr & Ht & Hp) & Ho).
    injection Hr as <-. split.
    + rewrite Hp. rewrite <- Ht. reflexivity.
    + by rewrite Ho.
Defined.

(** ** The requests of [list_permissions] *)

Lemma permission_kwargs_fields self (kwargs : dict) :
  permission_kwargs self kwargs !! "fields" = Some (default (VStr "*") (kwargs !! "fields")).
Proof.
  unfold permission_kwargs.
  destruct (has_key (Drive.with_team_drive_support self kwargs) "fields") eqn:Hk; cbn [negb].
  - apply has_key_true in Hk as [v Hv]. rewrite Hv.
    rewrite team_drive_support_other in Hv by done. by rewrite Hv.
  - apply has_key_false in Hk. rewrite lookup_insert_eq.
    rewrite team_drive_support_other in Hk by done. by rewrite Hk.
Qed.

Lemma permission_kwargs_team_drive self (kwargs : dict) :
  permission_kwargs self kwargs !! "supportsTeamDrives" = team_drive_support self kwargs.
Proof.
  unfold permission_kwargs. destruct (negb _).
  - rewrite lookup_insert_ne by done. apply team_drive_support_lookup.
  - apply team_drive_support_lookup.
Qed.

Lemma next_permission_pages_elem_of file_id (kwargs : dict) : forall responses q,
  q ∈ next_permission_pages file_id kwargs responses ->
  exists token,
    q = Request permissions_list
          (list_to_map [("fileId", VStr file_id); ("pageToken", token)] ∪ kwargs) None.
Proof.
  induction responses as [|r rest IH]; intros q Hq; [by apply elem_of_nil in Hq|].
  destruct rest as [|r' rest]; [by apply elem_of_nil in Hq|].
  cbn [next_permission_pages] in Hq.
  destruct (r !! "nextPageToken") as [token|]; [|by apply elem_of_nil in Hq].
  apply elem_of_cons in Hq as [->|Hq]; [by exists token|by apply IH].
Qed.

Lemma next_permission_pages_length file_id (kwargs : dict) : forall responses,
  paginated "permissions" responses ->
  length (next_permission_pages file_id kwargs responses) = pred (length responses).
Proof.
  induction responses as [|r rest IH]; intros Hpag; [done|].
  destruct rest as [|r' rest]; [done|].
  destruct Hpag as [_ [[token Htoken] Hpag]].
  rewrite (next_permission_pages_token file_id kwargs r r' rest token Htoken).
  cbn [length]. by rewrite (IH Hpag).
Qed.

(** X13.  [list_permissions] returns the permissions of all pages in order,
    with one request per page; every request names the file, asks for all
    fields unless the caller chose them, and carries the team drive flag. *)
Theorem list_permissions_paginates env self file_id r rest (kwargs : dict) w fuel :
  0 < retries self ->
  kwargs !! "fileId" = None ->
  kwargs !! "pageToken" = None ->
  paginated "permissions" (r :: rest) ->
  answers env w (r :: rest) ->
  (length rest <= fuel)%nat ->
  exists requests,
    Drive.list_permissions env fuel self file_id kwargs w
    = (Ok (concat (page "permissions" <$> r :: rest)),
       World (history w ++ (Executed <$> requests)) (logs w) (handles w) (index_of w))
    /\ length requests = length (r :: rest)
    /\ (forall q, q ∈ requests ->
          endpoint_of q = permissions_list
          /\ body q = None
          /\ params q !! "fileId" = Some (VStr file_id)
          /\ params q !! "fields" = Some (default (VStr "*") (kwargs !! "fields"))
          /\ params q !! "supportsTeamDrives" = team_drive_support self kwargs).
Proof.
  intros Hpos Hfile Htoken Hpag Hans Hfuel.
  eexists. split; [by apply list_permissions_run|]. split.
  - cbn [length]. by rewrite (next_permission_pages_length _ _ _ Hpag).
  - intros q Hq.
    assert (Hshape : exists explicit,
              q = Request permissions_list
                    (list_to_map (("fileId", VStr file_id) :: explicit)
                     ∪ permission_kwargs self kwargs) None
              /\ (explicit = [] \/ exists token, explicit = [("pageToken", token)])).
    { apply elem_of_cons in Hq as [->|Hq]; [exists []; by split; [|left]|].
      apply next_permission_pages_elem_of in Hq as [token ->].
      exists [("pageToken", token)]. split; [done|]. right. by exists token. }
    destruct Hshape as (explicit & -> & Hexplicit).
    split; [done|]. split; [done|]. cbn [params].
    split; [apply lookup_union_Some_l; rewrite list_to_map_cons; apply lookup_insert_eq|].
    assert (Hother : forall key, key <> "fileId" -> key <> "pageToken" ->
              (list_to_map (("fileId", VStr file_id) :: explicit)
               ∪ permission_kwargs self kwargs : dict) !! key
              = permission_kwargs self kwargs !! key).
    { intros key H1 H2. rewrite lookup_union_r; [done|]. apply not_elem_of_list_to_map.
      destruct Hexplicit as [->|[token ->]]; simpl; rewrite !not_elem_of_cons;
        repeat (split; [done|]); apply not_elem_of_nil. }
    rewrite !Hother by done.
    split; [apply permission_kwargs_fields|apply permission_kwargs_team_drive].
Qed.

Lemma two_permission_pages_answers :
  answers two_permission_pages w0 [first_permissions; last_permissions].
Proof.
  intros w' q k r Hlen Hk. cbn [execute two_permission_pages].
  destruct k as [|[|k]]; simpl in Hk; try discriminate; injection Hk as <-.
  - destruct (history w'); [done|discriminate].
  - destruct (history w'); [discriminate|done].
Qed.

Lemma two_permission_pages_paginated :
  paginated "permissions" [first_permissions; last_permissions].
Proof. repeat split; try by eexists. Qed.

Lemma list_permissions_paginates_witness :
  exists requests,
    Drive.list_permissions two_permission_pages 1 on_team_drive "file" ∅ w0
    = (Ok [VStr "p"; VStr "q"], World (Executed <$> requests) [] [] (index_of w0))
    /\ length requests = 2%nat
    /\ (forall q, q ∈ requests ->
          params q !! "fields" = Some (VStr "*")
          /\ params q !! "supportsTeamDrives" = Some (VBool true)).
Proof.
  assert (Hnone : forall key, (∅ : dict) !! key = None) by (intros; apply lookup_empty).
  destruct (list_permissions_paginates two_permission_pages on_team_drive "file"
              first_permissions [last_permissions] ∅ w0 1)
    as (requests & Hrun & Hlen & Hshape).
  - reflexivity.
  - apply Hnone.
  - apply Hnone.
  - apply two_permission_pages_paginated.
  - apply two_permission_pages_answers.
  - simpl. lia.
  - exists requests. split; [exact Hrun|]. split; [exact Hlen|].
    intros q Hq. destruct (Hshape q Hq) as (_ & _ & _ & Hfields & Hteam).
    split; [exact Hfields|exact Hteam].
Defined.

(** X14.  A [pageToken] of the caller's makes [list_permissions] fail as
    soon as the first response announces a further page: the loop passes its
    own [pageToken] beside the caller's keywords, and the call ends in
    [TypeError] after the one request for the first page. *)
Theorem list_permissions_caller_token env self file_id (kwargs : dict) w fuel r :
  0 < retries self ->
  kwargs !! "fileId" = None ->
  is_Some (kwargs !! "pageToken") ->
  let first :=
    Request permissions_list
      (list_to_map [("fileId", VStr file_id)] ∪ permission_kwargs self kwargs) None in
  execute env w first = Returns r ->
  (exists l, r !! "permissions" = Some (VList l)) ->
  is_Some (r !! "nextPageToken") ->
  exists msg,
    Drive.list_permissions env (S fuel) self file_id kwargs w
    = (Raise (TypeError msg),
       World (history w ++ [Executed first]) (logs w) (handles w) (index_of w)).
Proof.
  intros Hpos Hfile Hcaller first Hr [l Hl] [token Htoken].
  exists "got multiple values for keyword argument 'pageToken'".
  unfold Drive.list_permissions. fold (permission_kwargs self kwargs).
  unfold bind at 1. rewrite call_built.
  2:{ intros k Hk. simpl in Hk. apply list_elem_of_singleton in Hk as ->.
      by rewrite permission_kwargs_other. }
  fold first. unfold bind at 1.
  rewrite (execute_request_answered env self first w r Hpos Hr).
  unfold bind at 1, subscript at 1. rewrite Hl. cbn [ret].
  unfold bind at 1, extend at 1. cbn [ret].
  cbn [Drive.list_permissions_while]. unfold bind at 1, contains at 1, ret at 1.
  rewrite bool_decide_eq_true_2 by (by rewrite Htoken).
  unfold bind at 1, subscript at 1. rewrite Htoken. cbn [ret].
  unfold bind at 1.
  destruct (call_cases permissions_list [("fileId", VStr file_id); ("pageToken", token)] None
              (permission_kwargs self kwargs)
              (World (history w ++ [Executed first]) (logs w) (handles w) (index_of w)))
    as [(key & Hkey & Hsome & Hcall)|[Hfree _]].
  - rewrite Hcall. simpl in Hkey. apply elem_of_cons in Hkey as [->|Hkey].
    + rewrite permission_kwargs_other in Hsome by done. rewrite Hfile in Hsome.
      by destruct Hsome.
    + by apply list_elem_of_singleton in Hkey as ->.
  - specialize (Hfree "pageToken"). rewrite permission_kwargs_other in Hfree by done.
    rewrite Hfree in Hcaller; [by destruct Hcaller|].
    simpl. apply elem_of_cons. right. by apply list_elem_of_singleton.
Qed.

Lemma list_permissions_caller_token_witness :
  exists msg,
    Drive.list_permissions two_permission_pages 1 fresh "file" {[ "pageToken" := VStr "t0" ]} w0
    = (Raise (TypeError msg),
       World [Executed (Request permissions_list
                          (list_to_map [("fileId", VStr "file")]
                           ∪ permission_kwargs fresh {[ "pageToken" := VStr "t0" ]}) None)]
             [] [] (index_of w0)).
Proof.
  apply (list_permissions_caller_token two_permission_pages fresh "file"
           {[ "pageToken" := VStr "t0" ]} w0 0 first_permissions).
  - reflexivity.
  - reflexivity.
  - by eexists.
  - reflexivity.
  - by eexists.
  - by eexists.
Defined.

(** ** Exporting a spreadsheet into one file *)

(** The export of a whole spreadsheet into one file, step by step. *)
Lemma export_spreadsheet_run env values self s fmt path filename w mime ext :
  (forall w, Drive.split_format values fmt w = (Ok (mime, ext), w)) ->
  is_CSV_or_TSV fmt && (1 <? length (worksheets s))%nat = false ->
  let file_name := default (ss_id s) filename +:+ ext in
  let request := Drive._export_request (ss_id s) mime in
  let started :=
    World (history w) (logs w) (handles w ++ [FileHandle (path +:+ file_name) 0 false])
          (index_of w) in
  let d := serve env started request in
  let chunks := map (Chunk request) (seq 0 (S (length (partial_chunks d)))) in
  let file := FileHandle (path +:+ file_name) (length (delivered d)) false in
  Drive.export env values self (ASpreadsheet s) fmt path filename w
  = if unwritable env (path +:+ file_name)
    then (Raise (OSError (path +:+ file_name)), w)
    else match ending d with
         | Completes _ =>
             (Ok tt,
              World (history w ++ chunks)
                    ((logs w ++ map progress (delivered d))
                     ++ [Info "Download finished. File saved in %s."
                           [VStr (path +:+ file_name +:+ ext)]])
                    (handles w ++ [file]) (index_of w))
         | Breaks e =>
             (Raise (Provider e),
              World (history w ++ chunks) (logs w ++ map progress (delivered d))
                    (handles w ++ [file]) (index_of w))
         end.
Proof.
  intros Hsplit Hone file_name request started d chunks file.
  unfold Drive.export. cbn [Drive.export_rec].
  unfold bind at 1. rewrite Hsplit. rewrite Hone.
  unfold bind at 1. cbn [ret Drive.str_id].
  assert (Hname : match filename with
                  | Some filename => filename +:+ ext
                  | None => ss_id s +:+ ext
                  end = file_name) by (by destruct filename).
  rewrite Hname.
  unfold bind at 1, open_file at 1.
  destruct (unwritable env (path +:+ file_name)); [reflexivity|].
  fold started. unfold bind at 1. fold request. fold d.
  unfold bind at 1. rewrite download_chunks_run.
  replace (Download (partial_chunks d) (ending d)) with d by (by destruct d).
  subst started. cbn [history logs handles index_of].
  replace (length (handles w)) with (length (handles w) + 0)%nat by lia.
  rewrite alter_app_r. cbn [alter list_alter].
  assert (Hfile : more_written (length (delivered d)) (FileHandle (path +:+ file_name) 0 false)
                  = file).
  { unfold more_written, file. cbn [name written closed]. by rewrite Nat.add_0_r. }
  rewrite Hfile. fold chunks.
  destruct (ending d); reflexivity.
Qed.

(** X15.  Unless the format is CSV or TSV and the spreadsheet has several
    worksheets, [export] of a spreadsheet touches no worksheet position and
    makes one file: it is named by the path, the file name (the spreadsheet
    id when none is given) and the extension, and filled by one download of
    the spreadsheet in the requested MIME type.  A file that cannot be
    opened ends the call before any download. *)
Theorem export_spreadsheet_single_file env values self s fmt path filename w mime ext :
  (forall w, Drive.split_format values fmt w = (Ok (mime, ext), w)) ->
  is_CSV_or_TSV fmt && (1 <? length (worksheets s))%nat = false ->
  let file_name := default (ss_id s) filename +:+ ext in
  let run := Drive.export env values self (ASpreadsheet s) fmt path filename w in
  index_of (snd run) = index_of w
  /\ (unwritable env (path +:+ file_name) = true ->
      run = (Raise (OSError (path +:+ file_name)), w))
  /\ (unwritable env (path +:+ file_name) = false ->
      downloads (sent w (snd run)) = [Drive._export_request (ss_id s) mime]
      /\ name <$> opened w (snd run) = [path +:+ file_name]
      /\ (fst run = Ok tt \/ exists e, fst run = Raise (Provider e))).
Proof.
  intros Hsplit Hone file_name run. subst run.
  rewrite (export_spreadsheet_run env values self s fmt path filename w mime ext Hsplit Hone).
  fold file_name.
  destruct (unwritable env (path +:+ file_name)).
  - split; [done|]. split; [done|discriminate].
  - match goal with |- context [ending ?x] => set (d := x) end.
    split; [by destruct (ending d)|]. split; [discriminate|]. intros _.
    unfold sent, opened.
    destruct (ending d); cbn [fst snd history handles];
      rewrite !drop_app_length, downloads_one; (split; [done|]); (split; [done|]);
      [by left|right; by eexists].
Qed.

Lemma export_spreadsheet_single_file_witness :
  name <$> opened w_doc (snd (Drive.export accepting sample_values fresh (ASpreadsheet doc) PDF
                                "/tmp/" None w_doc))
  = ["/tmp/" +:+ (ss_id doc +:+ ".pdf")]
  /\ index_of (snd (Drive.export accepting sample_values fresh (ASpreadsheet doc) PDF
                      "/tmp/" None w_doc)) = index_of w_doc.
Proof.
  destruct (export_spreadsheet_single_file accepting sample_values fresh doc PDF "/tmp/" None
              w_doc "application/pdf" ".pdf") as (Hindex & _ & Hfile).
  - intros w. reflexivity.
  - reflexivity.
  - split; [|exact Hindex]. destruct Hfile as (_ & Hname & _); [reflexivity|exact Hname].
Defined.

(** ** A worksheet whose export fails *)

(** X16.  When [export] of a worksheet does not return normally, because the
    file cannot be opened or the download breaks, the worksheet is left at
    the first position, where the call had put it; the other worksheets are
    where they were. *)
Theorem export_worksheet_failure env values self ws fmt path filename w mime ext :
  (forall w, Drive.split_format values fmt w = (Ok (mime, ext), w)) ->
  let run := Drive.export env values self (AWorksheet ws) fmt path filename w in
  fst run <> Ok tt ->
  index_of (snd run) (ws_object ws) = 0
  /\ (forall o, o <> ws_object ws -> index_of (snd run) o = index_of w o)
  /\ ((exists file, fst run = Raise (OSError file) /\ opened w (snd run) = [])
      \/ (exists e file, fst run = Raise (Provider e) /\ name <$> opened w (snd run) = [file])).
Proof.
  intros Hsplit run. subst run.
  unfold Drive.export.
  rewrite (export_worksheet_run env values 1 self ws fmt path filename w mime ext Hsplit).
  cbv zeta.
  assert (Hmoved : forall i, moved ws i w (ws_object ws) = i
                   /\ forall o, o <> ws_object ws -> moved ws i w o = index_of w o).
  { intros i. unfold moved. rewrite Nat.eqb_refl. split; [done|].
    intros o Ho. apply Nat.eqb_neq in Ho. by rewrite Ho. }
  destruct (unwritable env _).
  - intros _. cbn [fst snd index_of]. split; [apply Hmoved|]. split; [apply Hmoved|].
    left. eexists. split; [done|]. unfold opened. cbn [handles]. apply drop_all.
  - match goal with |- context [ending ?x] => set (d := x) end.
    destruct (ending d) as [st|e]; [done|]. intros _. cbn [fst snd index_of].
    split; [apply Hmoved|]. split; [apply Hmoved|].
    right. eexists _, _. split; [done|]. unfold opened. cbn [handles].
    by rewrite drop_app_length.
Qed.

Lemma export_worksheet_failure_witness :
  fst (Drive.export breaking sample_values fresh (AWorksheet second_sheet) PDF "" None w_doc)
  <> Ok tt
  /\ index_of w_doc (ws_object second_sheet) = 1
  /\ index_of (snd (Drive.export breaking sample_values fresh (AWorksheet second_sheet) PDF
                      "" None w_doc)) (ws_object second_sheet) = 0.
Proof.
  assert (Hfails : fst (Drive.export breaking sample_values fresh (AWorksheet second_sheet)
                          PDF "" None w_doc) <> Ok tt) by discriminate.
  split; [exact Hfails|]. split; [reflexivity|].
  destruct (export_worksheet_failure breaking sample_values fresh second_sheet PDF "" None
              w_doc "application/pdf" ".pdf") as (Hfirst & _).
  - intros w. reflexivity.
  - exact Hfails.
  - exact Hfirst.
Defined.

(** ** The message at the end of a download *)

Lemma string_append_assoc (a b c : string) : (a +:+ b) +:+ c = a +:+ (b +:+ c).
Proof.
  induction a as [|x a IH]; [done|].
  change (String x ((a +:+ b) +:+ c) = String x (a +:+ (b +:+ c))). by rewrite IH.
Qed.

(** X17.  When [export] has written one file, the message it logs last names
    the path of that file followed by the extension once more: the file
    name in the message already ends in the extension. *)
Theorem export_finished_message env values self sh fmt path filename w w' mime ext :
  (forall w, Drive.split_format values fmt w = (Ok (mime, ext), w)) ->
  match sh with
  | ASpreadsheet s => is_CSV_or_TSV fmt && (1 <? length (worksheets s))%nat = false
  | AWorksheet _ => True
  end ->
  Drive.export env values self sh fmt path filename w = (Ok tt, w') ->
  exists file,
    opened w w' = [file]
    /\ last (logs w')
       = Some (Info "Download finished. File saved in %s." [VStr (name file +:+ ext)]).
Proof.
  intros Hsplit Hone. destruct sh as [s|ws].
  - rewrite (export_spreadsheet_run env values self s fmt path filename w mime ext Hsplit Hone).
    destruct (unwritable env _); [discriminate|].
    match goal with |- context [ending ?x] => set (d := x) end.
    destruct (ending d); [|discriminate]. intros Hrun. injection Hrun as <-.
    eexists. unfold opened. cbn [handles logs].
    rewrite last_snoc, drop_app_length. split; [reflexivity|].
    cbn [name]. by rewrite !string_append_assoc.
  - unfold Drive.export.
    rewrite (export_worksheet_run env values 1 self ws fmt path filename w mime ext Hsplit).
    cbv zeta. destruct (unwritable env _); [discriminate|].
    match goal with |- context [ending ?x] => set (d := x) end.
    destruct (ending d); [|discriminate]. intros Hrun. injection Hrun as <-.
    eexists. unfold opened. cbn [handles logs].
    rewrite last_snoc, drop_app_length. split; [reflexivity|].
    cbn [name]. by rewrite !string_append_assoc.
Qed.

Lemma export_finished_message_witness :
  exists file,
    opened w_doc (snd (Drive.export slow sample_values fresh (AWorksheet second_sheet)
                         (Member CSV) "/tmp/" None w_doc)) = [file]
    /\ name file = "/tmp/1577.csv"
    /\ last (logs (snd (Drive.export slow sample_values fresh (AWorksheet second_sheet)
                          (Member CSV) "/tmp/" None w_doc)))
       = Some (Info "Download finished. File saved in %s." [VStr "/tmp/1577.csv.csv"]).
Proof.
  destruct (export_finished_message slow sample_values fresh (AWorksheet second_sheet)
              (Member CSV) "/tmp/" None w_doc
              (snd (Drive.export slow sample_values fresh (AWorksheet second_sheet)
                      (Member CSV) "/tmp/" None w_doc)) "text/csv" ".csv")
    as (file & Hopened & Hlog).
  - intros w. reflexivity.
  - exact I.
  - reflexivity.
  - exists file. split; [exact Hopened|].
    assert (Hname : name file = "/tmp/1577.csv").
    { assert (Hfiles : name <$> [file] = ["/tmp/1577.csv"]) by (by rewrite <- Hopened).
      by injection Hfiles. }
    split; [exact Hname|]. rewrite Hlog, Hname. reflexivity.
Defined.

(** ** The format string of [export] *)

Lemma split_not_nil c s : split c s <> [].
Proof. destruct s as [|x s]; simpl; [done|]. destruct (Ascii.eqb x c); [done|]. by destruct (split c s). Qed.

Lemma split_length c : forall s, length (split c s) = S (occurrences c s).
Proof.
  induction s as [|x s IH]; [done|]. cbn [split occurrences].
  destruct (Ascii.eqb x c); cbn [length]; [by rewrite IH|].
  destruct (split c s) as [|p ps] eqn:Hs; [by destruct (split_not_nil c s)|].
  cbn [length] in *. by rewrite IH.
Qed.

Lemma split_one c : forall s b, split c s = [b] -> s = b /\ occurrences c b = 0%nat.
Proof.
  induction s as [|x s IH]; intros b; cbn [split].
  - by intros [= <-].
  - destruct (Ascii.eqb x c) eqn:Hx.
    + intros [= _ Hs]. by destruct (split_not_nil c s).
    + destruct (split c s) as [|p ps] eqn:Hs; [by destruct (split_not_nil c s)|].
      intros [= <- ->]. destruct (IH p eq_refl) as [-> Hp].
      cbn [occurrences]. by rewrite Hx.
Qed.

Lemma split_two c : forall s a b,
  split c s = [a; b] ->
  s = a +:+ String c b /\ occurrences c a = 0%nat /\ occurrences c b = 0%nat.
Proof.
  induction s as [|x s IH]; intros a b; cbn [split]; [done|].
  destruct (Ascii.eqb x c) eqn:Hx.
  - intros [= <- Hs]. apply Ascii.eqb_eq in Hx as ->.
    by destruct (split_one c s b Hs) as [-> Hb].
  - destruct (split c s) as [|p ps] eqn:Hs; [by destruct (split_not_nil c s)|].
    intros [= <- ->]. destruct (IH p b eq_refl) as (-> & Hp & Hb).
    cbn [occurrences]. by rewrite Hx.
Qed.

(** X18.  [export] takes the format apart at its colons before it does
    anything else.  With one colon the two parts are the MIME type and the
    extension, and put together again they give the format; with none, or
    with more than one, the call ends in [ValueError] and nothing has been
    touched: no worksheet moved, no file opened, nothing downloaded. *)
Theorem export_format_colons env values self fmt :
  let text := format_text values fmt in
  (occurrences ":" text = 1%nat ->
   exists mime ext,
     (forall w, Drive.split_format values fmt w = (Ok (mime, ext), w))
     /\ text = mime +:+ ":" +:+ ext
     /\ occurrences ":" mime = 0%nat /\ occurrences ":" ext = 0%nat)
  /\ (occurrences ":" text = 0%nat ->
      forall sh path filename w,
        Drive.export env values self sh fmt path filename w
        = (Raise (ValueError "not enough values to unpack (expected 2, got 1)"), w))
  /\ ((1 < occurrences ":" text)%nat ->
      forall sh path filename w,
        Drive.export env values self sh fmt path filename w
        = (Raise (ValueError "too many values to unpack (expected 2)"), w)).
Proof.
  intros text.
  assert (Hlen := split_length ":" text).
  assert (Hsplit : forall w,
    Drive.split_format values fmt w
    = match split ":" text with
      | [mime; ext] => (Ok (mime, ext), w)
      | [] | [_] => (Raise (ValueError "not enough values to unpack (expected 2, got 1)"), w)
      | _ => (Raise (ValueError "too many values to unpack (expected 2)"), w)
      end).
  { intros w. unfold Drive.split_format. fold (format_text values fmt). fold text.
    by destruct (split ":" text) as [|a [|b [|c l]]]. }
  split; [|split].
  - intros Hone. rewrite Hone in Hlen.
    destruct (split ":" text) as [|mime [|ext [|c l]]] eqn:Hparts; try discriminate.
    exists mime, ext. split; [exact Hsplit|]. by apply split_two.
  - intros Hnone sh path filename w. rewrite Hnone in Hlen.
    destruct (split ":" text) as [|a [|b l]] eqn:Hparts; try discriminate.
    unfold Drive.export. cbn [Drive.export_rec]. unfold bind at 1. by rewrite Hsplit.
  - intros Hmany sh path filename w.
    destruct (split ":" text) as [|a [|b [|c l]]] eqn:Hparts; cbn [length] in Hlen; try lia.
    unfold Drive.export. cbn [Drive.export_rec]. unfold bind at 1. by rewrite Hsplit.
Qed.

Lemma export_format_colons_witness :
  (exists mime ext,
     (forall w, Drive.split_format sample_values (Member TSV) w = (Ok (mime, ext), w))
     /\ "text/tab-separated-values:.tsv" = mime +:+ ":" +:+ ext)
  /\ Drive.export accepting sample_values fresh (AWorksheet second_sheet) (Plain "pdf") "" None
       w_doc
     = (Raise (ValueError "not enough values to unpack (expected 2, got 1)"), w_doc)
  /\ Drive.export accepting sample_values fresh (AWorksheet second_sheet)
       (Plain "text/csv:.csv:utf-8") "" None w_doc
     = (Raise (ValueError "too many values to unpack (expected 2)"), w_doc).
Proof.
  split; [|split].
  - destruct (export_format_colons accepting sample_values fresh (Member TSV))
      as (Hone & _).
    destruct Hone as (mime & ext & Hsplit & Htext & _); [reflexivity|].
    exists mime, ext. split; [exact Hsplit|exact Htext].
  - apply (export_format_colons accepting sample_values fresh (Plain "pdf")). reflexivity.
  - apply (export_format_colons accepting sample_values fresh (Plain "text/csv:.csv:utf-8")).
    simpl. lia.
Defined.

(** ** The metadata of the spreadsheets *)

(** X19.  [spreadsheet_metadata] asks for the id, name and parents of
    spreadsheets only, on every page: the query of each request is the
    spreadsheet MIME type query, after the caller's query and [and] when
    there is one.  It returns the files of all pages; when the last page
    reports an incomplete search, a wrapper on a team drive warns about the
    corpora [teamDrive] and still returns them, and a wrapper on the
    personal drive fails with [KeyError]. *)
Theorem spreadsheet_metadata_pages env self query r rest w fuel :
  0 < retries self ->
  paginated "files" (r :: rest) ->
  answers env w (r :: rest) ->
  (length rest <= fuel)%nat ->
  let run := Drive.spreadsheet_metadata env fuel self query w in
  let files := concat (page "files" <$> r :: rest) in
  (incomplete (List.last rest r) = false -> fst run = Ok files /\ logs (snd run) = logs w)
  /\ (incomplete (List.last rest r) = true -> team_drive_active self = true ->
      fst run = Ok files
      /\ logs (snd run) = logs w ++ [Warning Drive.list_warning [VStr "teamDrive"]])
  /\ (incomplete (List.last rest r) = true -> team_drive_active self = false ->
      fst run = Raise (KeyError "corpora") /\ logs (snd run) = logs w)
  /\ (forall q, Executed q ∈ sent w (snd run) ->
        endpoint_of q = files_list
        /\ params q !! "fields" = Some (VStr "files(id, name, parents)")
        /\ params q !! "q"
           = Some (VStr (if String.eqb query "" then _spreadsheet_mime_type_query
                         else query +:+ " and " +:+ _spreadsheet_mime_type_query))).
Proof.
  intros Hpos Hpag Hans Hfuel run files. subst run. unfold Drive.spreadsheet_metadata.
  assert (Hquery : (if negb (String.eqb query "")
                    then query +:+ " and " +:+ _spreadsheet_mime_type_query
                    else _spreadsheet_mime_type_query)
                   = (if String.eqb query "" then _spreadsheet_mime_type_query
                      else query +:+ " and " +:+ _spreadsheet_mime_type_query))
    by (by destruct (String.eqb query "")).
  rewrite Hquery. clear Hquery.
  set (text := if String.eqb query "" then _ else _).
  assert (Hrequests : forall (kwargs : dict) w',
    kwargs !! "fields" = Some (VStr "files(id, name, parents)") ->
    kwargs !! "q" = Some (VStr text) ->
    history w' = history w
                 ++ (Executed <$> Request files_list kwargs None
                                  :: next_pages kwargs (r :: rest)) ->
    forall q, Executed q ∈ sent w w' ->
      endpoint_of q = files_list
      /\ params q !! "fields" = Some (VStr "files(id, name, parents)")
      /\ params q !! "q" = Some (VStr text)).
  { intros kwargs w' Hfields Hq Hh q Hin. unfold sent in Hin.
    rewrite Hh, drop_app_length in Hin.
    apply list_elem_of_fmap in Hin as (q' & [= <-] & Hin).
    apply elem_of_cons in Hin as [->|Hin]; [done|].
    apply list_elem_of_lookup in Hin as [i Hi].
    apply next_pages_lookup in Hi as (He & _ & _ & Hother).
    split; [done|]. by rewrite !Hother. }
  destruct (team_drive_active self) eqn:Hteam.
  - match goal with |- context [Drive.list env fuel self ?k w] => set (kwargs := k) end.
    assert (Hcorpora : kwargs !! "corpora" = Some (VStr "teamDrive")) by done.
    pose proof (list_run env self r rest kwargs w fuel Hpos Hpag Hans Hfuel) as Hrun.
    cbv zeta in Hrun. rewrite Hcorpora in Hrun. rewrite Hrun.
    split; [by intros ->|]. split; [by intros ->|]. split; [done|].
    apply (Hrequests kwargs).
    + done.
    + done.
    + by destruct (incomplete _).
  - match goal with |- context [Drive.list env fuel self ?k w] => set (kwargs := k) end.
    assert (Hcorpora : kwargs !! "corpora" = None) by done.
    pose proof (list_run env self r rest kwargs w fuel Hpos Hpag Hans Hfuel) as Hrun.
    cbv zeta in Hrun. rewrite Hcorpora in Hrun. rewrite Hrun.
    split; [by intros ->|]. split; [done|]. split; [by intros ->|].
    apply (Hrequests kwargs).
    + done.
    + done.
    + by destruct (incomplete _).
Qed.

Lemma spreadsheet_metadata_pages_witness :
  fst (Drive.spreadsheet_metadata one_page 0 on_team_drive "name contains 'report'" w0)
  = Ok [VStr "b"]
  /\ fst (Drive.spreadsheet_metadata one_page 0 fresh "name contains 'report'" w0)
     = Raise (KeyError "corpora").
Proof.
  assert (Hpag : paginated "files" [last_page]) by (split; [by eexists|done]).
  split.
  - destruct (spreadsheet_metadata_pages one_page on_team_drive "name contains 'report'"
                last_page [] w0 0 eq_refl Hpag one_page_answers (le_n 0))
      as (_ & Hwarned & _).
    apply Hwarned; reflexivity.
  - destruct (spreadsheet_metadata_pages one_page fresh "name contains 'report'"
                last_page [] w0 0 eq_refl Hpag one_page_answers (le_n 0))
      as (_ & _ & Hfails & _).
    apply Hfails; reflexivity.
Defined.

(** ** What the check of the email address lets through *)

(** [pattern.match] looks for a match at the start of the string: text after
    a match does not change the answer. *)
Lemma re_match_prefix : forall s r t,
  re_match r s = true -> re_match r (s +:+ t) = true.
Proof.
  induction s as [|c s IH]; intros r t; cbn [re_match].
  - rewrite orb_false_r. intros Hnull. change (EmptyString +:+ t) with t.
    destruct t; cbn [re_match]; by rewrite Hnull.
  - destruct (nullable r) eqn:Hnull.
    + intros _. change (String c s +:+ t) with (String c (s +:+ t)).
      cbn [re_match]. by rewrite Hnull.
    + cbn [orb]. intros Hrest. change (String c s +:+ t) with (String c (s +:+ t)).
      cbn [re_match]. rewrite Hnull. cbn [orb]. by apply IH.
Qed.

(** X20.  [create_permission] checks the start of the email address only:
    when an address has the required shape, the same address followed by
    any text passes the check as well, and the body of the request carries
    the whole string. *)
Theorem create_permission_trailing_text env ua self file_id role type (kwargs : dict) w
    address trailing :
  re_match (_EMAIL_PATTERN ua) address = true ->
  kwargs !! "emailAddress" = Some (VStr (address +:+ trailing)) ->
  role ∈ PERMISSION_ROLES -> type ∈ PERMISSION_TYPES ->
  kwargs !! "domain" = None -> kwargs !! "fileId" = None -> kwargs !! "body" = None ->
  exists parameters b,
    Drive.create_permission env ua self file_id role type kwargs w
    = Drive._execute_request env self (Request permissions_create parameters (Some b)) w
    /\ b !! "emailAddress" = Some (VStr (address +:+ trailing)).
Proof.
  intros Hmatch Haddr Hrole Htype Hdm Hf Hb.
  apply existsb_eqb_elem_of in Hrole, Htype.
  pose proof (re_match_prefix address (_EMAIL_PATTERN ua) trailing Hmatch) as Hwhole.
  destruct (create_permission_cases env ua self file_id role type kwargs w)
    as [(msg & _ & [[_ [? ?]]|[?|[?|(text & ? & ?)]]])
       |[(msg & _ & _ & _ & [(v & ? & Hv)|[[? ?]|[? ?]]])
        |(parameters & b & Hrun & Hbe & _)]]; try congruence.
  exists parameters, b. split; [done|]. by rewrite Hbe.
Qed.

Lemma create_permission_trailing_text_witness :
  exists parameters b,
    Drive.create_permission accepting ascii_only fresh "file" "reader" "user"
      {[ "emailAddress" := VStr "someone@example.org, and others" ]} w0
    = Drive._execute_request accepting fresh (Request permissions_create parameters (Some b)) w0
    /\ b !! "emailAddress" = Some (VStr "someone@example.org, and others").
Proof.
  assert (Haddr : ({[ "emailAddress" := VStr "someone@example.org, and others" ]} : dict)
                  !! "emailAddress" = Some (VStr ("someone@example.org" +:+ ", and others")))
    by reflexivity.
  apply (create_permission_trailing_text accepting ascii_only fresh "file" "reader" "user"
           {[ "emailAddress" := VStr "someone@example.org, and others" ]} w0
           "someone@example.org" ", and others").
  - reflexivity.
  - exact Haddr.
  - compute_done.
  - compute_done.
  - reflexivity.
  - reflexivity.
  - reflexivity.
Defined.

(** ** Instances of the earlier properties *)

Lemma email_needs_at_sign_witness :
  re_match (_EMAIL_PATTERN ascii_only) "someone.example.org" = false.
Proof.
  apply (email_needs_at_sign ascii_only "someone.example.org").
  intros c Hc ->. revert Hc. compute_done.
Defined.


Lemma export_sheets_named_witness :
  exists w',
    Drive.export accepting sample_values fresh (ASpreadsheet doc) (Member CSV) "" (Some "out")
      w_doc = (Ok tt, w')
    /\ name <$> opened w_doc w' = ["out0.csv"; "out1.csv"].
Proof.
  destruct (export_sheets_named accepting sample_values fresh doc (Member CSV) "" "out" w_doc
              "text/csv" ".csv") as (w' & Hrun & _ & _ & Hnames & _).
  - reflexivity.
  - simpl. lia.
  - intros w. reflexivity.
  - intros name. reflexivity.
  - intros w r. by eexists.
  - exists w'. split; [exact Hrun|exact Hnames].
Defined.

(** ** Deleting files *)

(** X25.  [delete] sends one request that names the file beside the caller's
    keywords.  When the provider answers, if need be after timeouts, the
    call returns nothing; a failure that is not timeout-classified reaches
    the caller as it is, also the one about the owner of a file that
    [delete_permission] translates, and nothing is logged. *)
Theorem delete_passes_errors env self file_id (kwargs : dict) w k :
  kwargs !! "fileId" = None ->
  Z.of_nat k < retries self ->
  let request := delete_request file_id kwargs in
  (forall j, (j < k)%nat -> exists e,
      attempt env request j w = Raises e /\ timeout_classified e = true) ->
  let w' := attempts env request (S k) w in
  (forall r, attempt env request k w = Returns r ->
      Drive.delete env self file_id kwargs w = (Ok tt, w'))
  /\ (forall e, attempt env request k w = Raises e -> timeout_classified e = false ->
      Drive.delete env self file_id kwargs w = (Raise (Provider e), w'))
  /\ logs w' = logs w
  /\ history w' = history w ++ replicate (S k) (Executed request).
Proof.
  intros Hfile Hk request Hbefore w'.
  assert (Hcall : Drive.delete env self file_id kwargs w
                  = (do Drive._execute_request env self request then ret tt) w).
  { unfold Drive.delete. unfold bind at 1. rewrite call_built; [done|].
    intros key Hkey. simpl in Hkey. by apply list_elem_of_singleton in Hkey as ->. }
  pose proof (execute_request_settled env self request w k Hk Hbefore) as Hrun.
  split; [|split; [|split]].
  - intros r Hr. rewrite Hr in Hrun. rewrite Hcall. unfold bind. by rewrite Hrun.
  - intros e He Hclass. rewrite He in Hrun. rewrite Hcall. unfold bind.
    by rewrite (Hrun Hclass).
  - apply attempts_frame.
  - apply attempts_history.
Qed.

Lemma delete_passes_errors_witness :
  Drive.delete (failing owner_kept) fresh "file" ∅ w0
  = (Raise (Provider owner_kept), attempts (failing owner_kept) (delete_request "file" ∅) 1 w0)
  /\ Drive.delete flaky fresh "file" ∅ w0
     = (Ok tt, attempts flaky (delete_request "file" ∅) 2 w0).
Proof.
  assert (Hnone : (∅ : dict) !! "fileId" = None) by reflexivity.
  split.
  - destruct (delete_passes_errors (failing owner_kept) fresh "file" ∅ w0 0 Hnone eq_refl)
      as (_ & Hraise & _).
    + intros j Hj. lia.
    + apply Hraise; reflexivity.
  - destruct (delete_passes_errors flaky fresh "file" ∅ w0 1 Hnone eq_refl)
      as (Hreturn & _).
    + intros j Hj. exists socket_timeout. destruct j as [|j]; [split; reflexivity|lia].
    + apply (Hreturn {[ "id" := VStr "1" ]}). reflexivity.
Defined.

(** ** Wrappers on the personal drive *)

Lemma list_permissions_while_same_budget env a b file_id : retries a = retries b ->
  forall fuel kwargs response permissions w,
    Drive.list_permissions_while env fuel a file_id kwargs response permissions w
    = Drive.list_permissions_while env fuel b file_id kwargs response permissions w.
Proof.
  intros Hr. induction fuel as [|fuel IH]; intros kwargs response permissions w;
    cbn [Drive.list_permissions_while]; [done|].
  apply bind_ext; [done|]. intros [|] w1; [|done].
  apply bind_ext; [done|]. intros token w2.
  apply bind_ext; [done|]. intros request w3.
  apply bind_ext; [by apply execute_request_same_budget|]. intros response' w4.
  apply bind_ext; [done|]. intros page w5.
  apply bind_ext; [done|]. intros permissions' w6. apply IH.
Qed.

(** X26.  A team drive id that is empty counts as none: two wrappers with
    the same retry budget and no team drive to speak of do the same in
    every operation that looks at the team drive. *)
Theorem personal_drive_wrappers env ua fuel a b :
  retries a = retries b ->
  team_drive_active a = false ->
  team_drive_active b = false ->
  (forall file_id role type kwargs w,
      Drive.create_permission env ua a file_id role type kwargs w
      = Drive.create_permission env ua b file_id role type kwargs w)
  /\ (forall file_id permission_id kwargs w,
        Drive.delete_permission env a file_id permission_id kwargs w
        = Drive.delete_permission env b file_id permission_id kwargs w)
  /\ (forall file_id kwargs w,
        Drive.list_permissions env fuel a file_id kwargs w
        = Drive.list_permissions env fuel b file_id kwargs w)
  /\ (forall query w,
        Drive.spreadsheet_metadata env fuel a query w
        = Drive.spreadsheet_metadata env fuel b query w).
Proof.
  intros Hr Ha Hb.
  assert (Hkw : forall kwargs,
            Drive.with_team_drive_support a kwargs = Drive.with_team_drive_support b kwargs).
  { intros kwargs. unfold Drive.with_team_drive_support. by rewrite Ha, Hb. }
  split; [|split; [|split]].
  - intros file_id role type kwargs w. unfold Drive.create_permission. rewrite Hkw.
    repeat (match goal with |- context [if ?c then _ else _] => destruct c end; [done|]).
    apply bind_ext; [done|]. intros [body kw] w1.
    destruct (Drive.move_key _ _) as [body' kw'].
    apply bind_ext; [done|]. intros request w2. by apply execute_request_same_budget.
  - intros file_id permission_id kwargs w. unfold Drive.delete_permission. rewrite Hkw.
    unfold try_except_HttpError.
    assert (Hbody : forall m,
      (let* request := m in do Drive._execute_request env a request then ret tt) w
      = (let* request := m in do Drive._execute_request env b request then ret tt) w).
    { intros m. apply bind_ext; [done|]. intros request w1.
      apply bind_ext; [by apply execute_request_same_budget|done]. }
    by rewrite Hbody.
  - intros file_id kwargs w. unfold Drive.list_permissions. rewrite Hkw.
    apply bind_ext; [done|]. intros request w1.
    apply bind_ext; [by apply execute_request_same_budget|]. intros response w2.
    apply bind_ext; [done|]. intros page w3.
    apply bind_ext; [done|]. intros permissions w4.
    by apply list_permissions_while_same_budget.
  - intros query w. unfold Drive.spreadsheet_metadata. rewrite Ha, Hb.
    unfold Drive.list.
    apply bind_ext; [by apply execute_request_same_budget|]. intros response w1.
    apply bind_ext; [done|]. intros page w2.
    apply bind_ext; [done|]. intros result w3.
    apply bind_ext; [by apply list_while_same_budget|done].
Qed.

Lemma personal_drive_wrappers_witness :
  team_drive_active on_nameless_drive = false
  /\ Drive.list_permissions accepting 0 on_nameless_drive "file" by_name w0
     = Drive.list_permissions accepting 0 fresh "file" by_name w0.
Proof.
  split; [reflexivity|].
  destruct (personal_drive_wrappers accepting ascii_only 0 on_nameless_drive fresh)
    as (_ & _ & Hlist & _).
  - reflexivity.
  - reflexivity.
  - reflexivity.
  - apply Hlist.
Defined.
